(** * chess_puzzle: a shallow embedding of the King-and-Bishop rules engine

    The development follows [chess_puzzle.py] function by function.

    - Python integers are unbounded: they are [Z].
    - A function that can raise returns an [outcome]; the exceptions the
      program raises itself or through a built-in are [IndexError],
      [ValueError], [OverflowError] and [FileNotFoundError]; opening a file
      can fail with whatever the system answers.
    - Pieces are objects.  No class of the program defines [__eq__], so
      [piece != self] and [list.remove] compare object identity.  Pieces are
      never assigned to after construction, so an object is fully described by
      an allocation tag [oid] together with its fields, and two references
      denote the same object exactly when the records are equal.
    - Strings are [string]s whose characters are the code points 0..255.
      A text with a character beyond 255 has no value here, so that every
      statement about texts, file names and file contents is a statement
      about texts of these characters, and says nothing of others (for
      which, for one, [str.lower] can give two characters and [ord] then
      raises [TypeError]).  Where the program itself would build such a
      character, with [chr], the outcome is [Unmodelled]. *)

From Stdlib Require Import ZArith Bool Lia String Ascii List Permutation.
Import ListNotations.

Local Open Scope Z_scope.

(** ** Outcomes of a call *)

(** What a [ValueError] says. *)
Inductive value_error : Type :=
| no_piece_at_location   (* No piece at given location. *)
| no_King_found          (* No King found for the specific side. *)
| not_in_list            (* list.remove(x): x not in list *)
| invalid_literal        (* invalid literal for int() with base 10 *)
| exceeds_digit_limit    (* Exceeds the limit (4300 digits) for integer string conversion *)
| chr_out_of_range       (* chr() arg not in range(0x110000) *)
| embedded_null_byte.    (* open(): embedded null byte *)

Inductive exn : Type :=
| IndexError
| ValueError (why : value_error)
| OverflowError          (* an integer that does not fit a C int *)
| FileNotFoundError.

(** [Ret a]: the call returns [a].  [Raise e]: it raises [e].  [Unmodelled]:
    the embedding stops following the program, because a loop was cut after
    its allotted number of iterations, because a character outside 0..255
    arose, or because a file name was met of which the system described says
    nothing; the theorems below show where this cannot happen. *)
Inductive outcome (A : Type) : Type :=
| Ret (a : A)
| Raise (e : exn)
| Unmodelled.

Arguments Ret {A} a.
Arguments Raise {A} e.
Arguments Unmodelled {A}.

Definition bind {A B : Type} (m : outcome A) (k : A -> outcome B) : outcome B :=
  match m with
  | Ret a => k a
  | Raise e => Raise e
  | Unmodelled => Unmodelled
  end.

Declare Scope outcome_scope.
Delimit Scope outcome_scope with outcome.
Notation "x <- m ;; k" := (bind m (fun x => k))
  (at level 61, m at next level, right associativity) : outcome_scope.
Local Open Scope outcome_scope.

(** [any(...)] over a generator whose test may raise, and equally a [for] loop
    that returns at the first element passing the test. *)
Fixpoint any_m {A : Type} (f : A -> outcome bool) (l : list A) : outcome bool :=
  match l with
  | [] => Ret false
  | a :: l' => b <- f a ;; if b then Ret true else any_m f l'
  end.

(** [range(lo, hi)] *)
Definition py_range (lo hi : Z) : list Z :=
  map (fun i => lo + Z.of_nat i) (seq 0 (Z.to_nat (hi - lo))).

(** ** Pieces and boards *)

Inductive Kind : Type :=
| King
| Bishop.

Record Piece : Type := mkPiece {
  oid : nat;
  kind : Kind;
  pos_x : Z;
  pos_y : Z;
  side : bool   (* true for White and false for Black *)
}.

(** [Board = tuple[int, list[Piece]]] *)
Definition Board : Type := (Z * list Piece)%type.

Definition Kind_eqb (a b : Kind) : bool :=
  match a, b with
  | King, King => true
  | Bishop, Bishop => true
  | _, _ => false
  end.

(** [p is q] *)
Definition same_object (p q : Piece) : bool :=
  Nat.eqb (oid p) (oid q) && Kind_eqb (kind p) (kind q)
  && Z.eqb (pos_x p) (pos_x q) && Z.eqb (pos_y p) (pos_y q)
  && Bool.eqb (side p) (side q).

(** The tag given to an object allocated while the objects of [live] exist. *)
Definition fresh_oid (live : list Piece) : nat :=
  S (fold_right Nat.max 0%nat (map oid live)).

Definition is_piece_at (pos_X pos_Y : Z) (B : Board) : bool :=
  existsb (fun piece => Z.eqb (pos_x piece) pos_X && Z.eqb (pos_y piece) pos_Y)
          (snd B).

Definition piece_at (pos_X pos_Y : Z) (B : Board) : outcome Piece :=
  match find (fun piece => Z.eqb (pos_x piece) pos_X && Z.eqb (pos_y piece) pos_Y)
             (snd B) with
  | Some piece => Ret piece
  | None => Raise (ValueError no_piece_at_location)
  end.

(** [l.remove(x)]: drops the first element that is [x], raises when none is. *)
Fixpoint list_remove (x : Piece) (l : list Piece) : outcome (list Piece) :=
  match l with
  | [] => Raise (ValueError not_in_list)
  | y :: l' =>
      if same_object y x then Ret l'
      else l'' <- list_remove x l' ;; Ret (y :: l'')
  end.

(** ** Bishop *)

(** The [while (x, y) != (pos_X, pos_Y)] loop of [Bishop.can_reach], cut after
    [fuel] iterations. *)
Fixpoint Bishop_ray (fuel : nat) (step_x step_y x y pos_X pos_Y : Z) (B : Board)
  : outcome bool :=
  if Z.eqb x pos_X && Z.eqb y pos_Y then Ret true
  else
    match fuel with
    | O => Unmodelled
    | S fuel' =>
        if is_piece_at x y B then Ret false
        else Bishop_ray fuel' step_x step_y (x + step_x) (y + step_y) pos_X pos_Y B
    end.

Definition Bishop_can_reach (self : Piece) (pos_X pos_Y : Z) (B : Board)
  : outcome bool :=
  if negb ((1 <=? pos_X) && (pos_X <=? fst B) && (1 <=? pos_Y) && (pos_Y <=? fst B))
  then Ret false
  else if Z.eqb (pos_x self) pos_X && Z.eqb (pos_y self) pos_Y
  then Ret false
  else
    let dx := Z.abs (pos_x self - pos_X) in
    let dy := Z.abs (pos_y self - pos_Y) in
    if negb (Z.eqb dx dy) then Ret false
    else
      let step_x := if pos_X >? pos_x self then 1 else -1 in
      let step_y := if pos_Y >? pos_y self then 1 else -1 in
      Bishop_ray (Z.to_nat dx) step_x step_y
                 (pos_x self + step_x) (pos_y self + step_y) pos_X pos_Y B.

Definition Bishop_move_to (self : Piece) (pos_X pos_Y : Z) (B : Board)
  : outcome Board :=
  let new_pieces := filter (fun piece => negb (same_object piece self)) (snd B) in
  new_pieces <-
    (if is_piece_at pos_X pos_Y B
     then target_piece <- piece_at pos_X pos_Y B ;;
          list_remove target_piece new_pieces
     else Ret new_pieces) ;;
  Ret (fst B,
       new_pieces
         ++ [mkPiece (fresh_oid (self :: snd B)) Bishop pos_X pos_Y (side self)]).

(** ** King *)

Definition King_can_reach (self : Piece) (pos_X pos_Y : Z) (B : Board)
  : outcome bool :=
  let dx := Z.abs (pos_x self - pos_X) in
  let dy := Z.abs (pos_y self - pos_Y) in
  Ret ((dx <=? 1) && (dy <=? 1)).

Definition King_move_to (self : Piece) (pos_X pos_Y : Z) (B : Board)
  : outcome Board :=
  let new_pieces := filter (fun piece => negb (same_object piece self)) (snd B) in
  new_pieces <-
    (if is_piece_at pos_X pos_Y B
     then target_piece <- piece_at pos_X pos_Y B ;;
          list_remove target_piece new_pieces
     else Ret new_pieces) ;;
  Ret (fst B,
       new_pieces
         ++ [mkPiece (fresh_oid (self :: snd B)) King pos_X pos_Y (side self)]).

(** ** Method dispatch on the class of the receiver *)

Definition can_reach (self : Piece) (pos_X pos_Y : Z) (B : Board) : outcome bool :=
  match kind self with
  | King => King_can_reach self pos_X pos_Y B
  | Bishop => Bishop_can_reach self pos_X pos_Y B
  end.

Definition move_to (self : Piece) (pos_X pos_Y : Z) (B : Board) : outcome Board :=
  match kind self with
  | King => King_move_to self pos_X pos_Y B
  | Bishop => Bishop_move_to self pos_X pos_Y B
  end.

(** ** Check *)

Definition is_King_of (side_ : bool) (piece : Piece) : bool :=
  Kind_eqb (kind piece) King && Bool.eqb (side piece) side_.

Definition is_check (side_ : bool) (B : Board) : outcome bool :=
  match find (is_King_of side_) (snd B) with
  | None => Raise (ValueError no_King_found)
  | Some king =>
      any_m (fun piece =>
               if negb (Bool.eqb (side piece) side_)
               then can_reach piece (pos_x king) (pos_y king) B
               else Ret false)
            (snd B)
  end.

(** ** Full legality *)

Definition Bishop_can_move_to (self : Piece) (pos_X pos_Y : Z) (B : Board)
  : outcome bool :=
  reach <- Bishop_can_reach self pos_X pos_Y B ;;
  if negb reach then Ret false
  else
    own <-
      (if is_piece_at pos_X pos_Y B
       then piece <- piece_at pos_X pos_Y B ;;
            Ret (Bool.eqb (side piece) (side self))
       else Ret false) ;;
    if own then Ret false
    else
      temp_board <- Bishop_move_to self pos_X pos_Y B ;;
      check <- is_check (side self) temp_board ;;
      if check then Ret false else Ret true.

Definition King_can_move_to (self : Piece) (pos_X pos_Y : Z) (B : Board)
  : outcome bool :=
  if negb ((1 <=? pos_X) && (pos_X <=? fst B) && (1 <=? pos_Y) && (pos_Y <=? fst B))
  then Ret false
  else if Z.eqb (pos_x self) pos_X && Z.eqb (pos_y self) pos_Y
  then Ret false
  else
    let dx := Z.abs (pos_x self - pos_X) in
    let dy := Z.abs (pos_y self - pos_Y) in
    if Z.max dx dy >? 1 then Ret false
    else
      own <-
        (if is_piece_at pos_X pos_Y B
         then piece <- piece_at pos_X pos_Y B ;;
              Ret (Bool.eqb (side piece) (side self))
         else Ret false) ;;
      if own then Ret false
      else
        temp_board <- King_move_to self pos_X pos_Y B ;;
        check <- is_check (side self) temp_board ;;
        if check then Ret false else Ret true.

Definition can_move_to (self : Piece) (pos_X pos_Y : Z) (B : Board) : outcome bool :=
  match kind self with
  | King => King_can_move_to self pos_X pos_Y B
  | Bishop => Bishop_can_move_to self pos_X pos_Y B
  end.

(** ** Checkmate and stalemate *)

(** In both functions the three nested [for] loops are an [any_m] each: they
    leave with [return False] at the first legal move found. *)
Definition is_checkmate (side_ : bool) (B : Board) : outcome bool :=
  check <- is_check side_ B ;;
  if negb check then Ret false
  else
    escape <-
      any_m (fun piece =>
               if Bool.eqb (side piece) side_
               then any_m (fun x =>
                             any_m (fun y => can_move_to piece x y B)
                                   (py_range 1 (fst B + 1)))
                          (py_range 1 (fst B + 1))
               else Ret false)
            (snd B) ;;
    if escape then Ret false else Ret true.

Definition is_stalemate (side_ : bool) (B : Board) : outcome bool :=
  check <- is_check side_ B ;;
  if check then Ret false
  else
    escape <-
      any_m (fun piece =>
               if Bool.eqb (side piece) side_
               then any_m (fun x =>
                             any_m (fun y => can_move_to piece x y B)
                                   (py_range 1 (fst B + 1)))
                          (py_range 1 (fst B + 1))
               else Ret false)
            (snd B) ;;
    if escape then Ret false else Ret true.

(** * The codecs *)

(** ** Characters and built-in conversions *)

(** [ord(c)] *)
Definition ord (c : ascii) : Z := Z.of_N (N_of_ascii c).

(** [chr(n)]: the argument is first converted to a C int, of 32 bits, which
    raises [OverflowError] when it does not fit; then [chr] raises its
    [ValueError] outside [range(0x110000)].  The characters of this embedding
    are the code points 0..255: from 256 on the code returns a character the
    embedding has no value for, and the outcome is [Unmodelled]. *)
Definition chr (n : Z) : outcome ascii :=
  if (n <? - 2147483648) || (2147483648 <=? n) then Raise OverflowError
  else if (n <? 0) || (1114112 <=? n) then Raise (ValueError chr_out_of_range)
  else if n <? 256 then Ret (ascii_of_N (Z.to_N n))
  else Unmodelled.

(** [c.lower()] on the code points 0..255: A-Z, and the capital letters
    U+00C0..U+00DE except the multiplication sign U+00D7. *)
Definition lower (c : ascii) : ascii :=
  let n := ord c in
  if ((65 <=? n) && (n <=? 90))
     || ((192 <=? n) && (n <=? 222) && negb (n =? 215))
  then ascii_of_N (Z.to_N (n + 32))
  else c.

Definition is_digit (c : ascii) : bool := (48 <=? ord c) && (ord c <=? 57).

Definition digit_value (c : ascii) : Z := ord c - 48.

Definition digit_char (d : Z) : ascii := ascii_of_N (Z.to_N (48 + d)).

(** The characters [str.strip()] removes. *)
Definition isspace (c : ascii) : bool :=
  let n := ord c in
  ((9 <=? n) && (n <=? 13)) || ((28 <=? n) && (n <=? 32))
  || (n =? 133) || (n =? 160).

(** The characters [int()] skips around a literal. *)
Definition int_space (c : ascii) : bool :=
  let n := ord c in
  ((9 <=? n) && (n <=? 13)) || (n =? 32) || (n =? 133) || (n =? 160).

(** The interpreter's default limit on the digits of a converted integer. *)
Definition int_max_str_digits : nat := 4300.

Fixpoint skip_spaces (s : string) : string :=
  match s with
  | String c s' => if int_space c then skip_spaces s' else s
  | EmptyString => s
  end.

(** The digits of a literal, read from the left: [acc] is the value and [n]
    the number of the digits read so far.  An underscore is accepted between
    two digits only.  The result is the value, the number of digits and the
    text left unread. *)
Fixpoint scan_digits (acc : Z) (n : nat) (s : string) : option (Z * nat * string) :=
  match s with
  | String c s' =>
      if is_digit c then scan_digits (10 * acc + digit_value c) (S n) s'
      else if Ascii.eqb c "_" then
        match n, s' with
        | S _, String c' _ => if is_digit c' then scan_digits acc n s' else None
        | _, _ => None
        end
      else Some (acc, n, s)
  | EmptyString => Some (acc, n, s)
  end.

(** The optional sign in front of the digits: whether it is a minus, and the
    text behind it. *)
Definition split_sign (s : string) : bool * string :=
  match s with
  | String c s' =>
      if Ascii.eqb c "-" then (true, s')
      else if Ascii.eqb c "+" then (false, s')
      else (false, s)
  | EmptyString => (false, s)
  end.

(** [int(s)] for a string [s] *)
Definition py_int (s : string) : outcome Z :=
  let '(negative, s2) := split_sign (skip_spaces s) in
  match scan_digits 0 0 s2 with
  | None => Raise (ValueError invalid_literal)
  | Some (v, n, rest) =>
      if Nat.eqb n 0 then Raise (ValueError invalid_literal)
      else if Nat.ltb int_max_str_digits n
      then Raise (ValueError exceeds_digit_limit)
      else if negb (String.eqb (skip_spaces rest) "")
      then Raise (ValueError invalid_literal)
      else Ret (if negative then - v else v)
  end.

(** The decimal digits of [n >= 0] put in front of [acc]. *)
Fixpoint digits_of (fuel : nat) (n : Z) (acc : string) : string :=
  match fuel with
  | O => acc
  | S fuel' =>
      let acc' := String (digit_char (n mod 10)) acc in
      if n <? 10 then acc' else digits_of fuel' (n / 10) acc'
  end.

(** [str(n)] for an integer [n] *)
Definition py_str (n : Z) : outcome string :=
  let digits := digits_of (S (Z.to_nat (Z.log2 (Z.abs n)))) (Z.abs n) "" in
  if Nat.ltb int_max_str_digits (String.length digits)
  then Raise (ValueError exceeds_digit_limit)
  else Ret (if n <? 0 then String "-" digits else digits).

Fixpoint lstrip (s : string) : string :=
  match s with
  | String c s' => if isspace c then lstrip s' else s
  | EmptyString => s
  end.

Fixpoint rstrip (s : string) : string :=
  match s with
  | String c s' =>
      match rstrip s' with
      | EmptyString => if isspace c then EmptyString else String c EmptyString
      | r => String c r
      end
  | EmptyString => s
  end.

(** [s.strip()] *)
Definition strip (s : string) : string := lstrip (rstrip s).

(** [c] put in front of the first string of a list. *)
Definition push_char (c : ascii) (l : list string) : list string :=
  match l with
  | t :: ts => String c t :: ts
  | [] => [String c EmptyString]
  end.

(** [s.split(", ")] *)
Fixpoint split_comma_space (s : string) : list string :=
  match s with
  | EmptyString => [EmptyString]
  | String c s' =>
      match s' with
      | String c2 s'' =>
          if Ascii.eqb c "," && Ascii.eqb c2 " "
          then EmptyString :: split_comma_space s''
          else push_char c (split_comma_space s')
      | EmptyString => push_char c (split_comma_space s')
      end
  end.

(** ** Coordinate codec *)

Definition location2index (loc : string) : outcome (Z * Z) :=
  match loc with
  | EmptyString => Raise IndexError
  | String c rest =>
      let x := ord (lower c) - ord "a" + 1 in
      y <- py_int rest ;;
      Ret (x, y)
  end.

Definition index2location (x y : Z) : outcome string :=
  column <- chr (x + ord "a" - 1) ;;
  row <- py_str y ;;
  Ret (String column row).

(** ** Board codec *)

(** How a file is opened: [open(name, "r")] or [open(name, "w")]. *)
Inductive open_mode : Type :=
| for_reading
| for_writing.

(** The files as the program meets them.  [texts] holds the names of the
    files with their texts, the first entry for a name being the file.
    [system_open mode name] is what the system does with [open(name, mode)],
    the absence of the file set aside: [Ret tt] when it opens the name,
    [Raise e] when it answers with the exception [e], for an empty name, a
    name with a NUL character or one that is too long, a directory, a
    missing permission, bytes that are no text in the encoding.  Which names
    a system opens is not the program's to decide: the theorems hold for
    every [system_open]. *)
Record files : Type := mkFiles {
  texts : list (string * string);
  system_open : open_mode -> string -> outcome unit
}.

Fixpoint lookup_text (name : string) (l : list (string * string)) : option string :=
  match l with
  | [] => None
  | (n, text) :: l' => if String.eqb n name then Some text else lookup_text name l'
  end.

Definition file_text (name : string) (fs : files) : option string :=
  lookup_text name (texts fs).


(** Text mode reads every line end, "\r\n" and "\r" included, as "\n". *)
Fixpoint universal_newlines (s : string) : string :=
  match s with
  | EmptyString => EmptyString
  | String c s' =>
      if Ascii.eqb c "013" then
        match s' with
        | String c2 s'' =>
            if Ascii.eqb c2 "010" then String "010" (universal_newlines s'')
            else String "010" (universal_newlines s')
        | EmptyString => String "010" EmptyString
        end
      else String c (universal_newlines s')
  end.

(** The lines of a text, each with its "\n" when it has one. *)
Fixpoint split_lines (s : string) : list string :=
  match s with
  | EmptyString => []
  | String c s' =>
      if Ascii.eqb c "010" then String c EmptyString :: split_lines s'
      else push_char c (split_lines s')
  end.

(** [file.readlines()] *)
Definition readlines (text : string) : list string :=
  split_lines (universal_newlines text).

(** A [for] loop that updates a state and may raise. *)
Fixpoint fold_m {A S : Type} (f : S -> A -> outcome S) (l : list A) (s : S)
  : outcome S :=
  match l with
  | [] => Ret s
  | a :: l' => s' <- f s a ;; fold_m f l' s'
  end.

(** [enumerate(l)] *)
Definition enumerate {A : Type} (l : list A) : list (nat * A) :=
  combine (seq 0 (length l)) l.

(** One token of a pieces line: the body of the inner loop of [read_board]. *)
Definition read_piece (side_ : bool) (pieces : list Piece) (piece : string)
  : outcome (list Piece) :=
  match piece with
  | EmptyString => Raise IndexError
  | String piece_type pos =>
      xy <- location2index pos ;;
      if Ascii.eqb piece_type "K"
      then Ret (pieces ++ [mkPiece (fresh_oid pieces) King (fst xy) (snd xy) side_])
      else if Ascii.eqb piece_type "B"
      then Ret (pieces ++ [mkPiece (fresh_oid pieces) Bishop (fst xy) (snd xy) side_])
      else Ret pieces
  end.

(** One line after the first: the body of the outer loop of [read_board]. *)
Definition read_line (pieces : list Piece) (numbered : nat * string)
  : outcome (list Piece) :=
  let '(i, line) := numbered in
  if String.eqb (strip line) "" then Ret pieces
  else
    let side_ := Nat.eqb i 0 in
    fold_m (read_piece side_) (split_comma_space (strip line)) pieces.

Definition read_board (filename : string) (fs : files) : outcome Board :=
  match system_open fs for_reading filename with
  | Raise e => Raise e
  | Unmodelled => Unmodelled
  | Ret _ =>
      match file_text filename fs with
      | None => Raise FileNotFoundError
      | Some text =>
          let lines := readlines text in
          match lines with
          | [] => Raise IndexError
          | first :: rest =>
              size <- py_int (strip first) ;;
              pieces <- fold_m read_line (enumerate rest) [] ;;
              Ret (size, pieces)
          end
      end
  end.




(** * The move selector and the display *)

(** ** Move selector *)

(** A [for] loop that returns a value from inside its body: [Ret (Some v)] at
    the first element whose body returns [v], [Ret None] when the loop runs
    to its end. *)
Fixpoint search_m {A R : Type} (f : A -> outcome (option R)) (l : list A)
  : outcome (option R) :=
  match l with
  | [] => Ret None
  | a :: l' =>
      r <- f a ;;
      match r with
      | Some v => Ret (Some v)
      | None => search_m f l'
      end
  end.

(** How a call of [find_black_move] ends: with its triple, with its own
    [ValueError] ("No valid move found for Black."), with an exception of
    [can_move_to] passing through, or where the embedding lost track. *)
Inductive selection : Type :=
| Selected (piece : Piece) (x y : Z)
| NoValidMove
| Stopped (e : exn)
| Unfollowed.

(** [random.shuffle] works on the hidden state of the generator: it is taken
    as a function [shuffle] from a state [g] and a list to the list rearranged
    and the next state.  [find_black_move] gives the state back beside its
    result. *)
Definition find_black_move {rng : Type}
           (shuffle : rng -> list Piece -> list Piece * rng)
           (g : rng) (B : Board) : selection * rng :=
  let black_pieces := filter (fun piece => negb (side piece)) (snd B) in
  let '(black_pieces, g') := shuffle g black_pieces in
  (match
      search_m (fun piece =>
        search_m (fun x =>
          search_m (fun y =>
            legal <- can_move_to piece x y B ;;
            if legal then Ret (Some (piece, x, y)) else Ret None)
          (py_range 1 (fst B + 1)))
        (py_range 1 (fst B + 1)))
      black_pieces
    with
    | Ret (Some (piece, x, y)) => Selected piece x y
    | Ret None => NoValidMove
    | Raise e => Stopped e
    | Unmodelled => Unfollowed
    end, g').

(** ** Display *)

(** The glyphs are beyond code point 255: the text [conf2unicode] builds is a
    list of code points, a line end being 10. *)

(** The place [l[i]] refers to: [i] counts from the end when negative. *)
Definition list_index {A : Type} (l : list A) (i : Z) : outcome nat :=
  let n := Z.of_nat (length l) in
  if (0 <=? i) && (i <? n) then Ret (Z.to_nat i)
  else if (- n <=? i) && (i <? 0) then Ret (Z.to_nat (i + n))
  else Raise IndexError.

(** [l[i]] *)
Definition list_get {A : Type} (l : list A) (i : Z) : outcome A :=
  k <- list_index l i ;;
  match nth_error l k with
  | Some a => Ret a
  | None => Raise IndexError
  end.

Fixpoint list_set {A : Type} (l : list A) (k : nat) (v : A) : list A :=
  match l, k with
  | [], _ => []
  | _ :: l', O => v :: l'
  | a :: l', S k' => a :: list_set l' k' v
  end.

(** [l[i] = v] *)
Definition list_assign {A : Type} (l : list A) (i : Z) (v : A) : outcome (list A) :=
  k <- list_index l i ;;
  Ret (list_set l k v).

Definition symbol (piece : Piece) : Z :=
  match kind piece with
  | King => if side piece then 9812 else 9818      (* U+2654, U+265A *)
  | Bishop => if side piece then 9815 else 9821    (* U+2657, U+265D *)
  end.

(** [board[piece.pos_y - 1][piece.pos_x - 1] = symbol]: the row is fetched,
    changed in place, and is still the row of the board at that index. *)
Definition place (board : list (list Z)) (piece : Piece)
  : outcome (list (list Z)) :=
  row <- list_get board (pos_y piece - 1) ;;
  row <- list_assign row (pos_x piece - 1) (symbol piece) ;;
  list_assign board (pos_y piece - 1) row.

(** The grid of [conf2unicode] after its loop over the pieces. *)
Definition draw_board (B : Board) : outcome (list (list Z)) :=
  let board := repeat (repeat 8193 (Z.to_nat (fst B))) (Z.to_nat (fst B)) in
  fold_m place (snd B) board.

(** ["\n".join(rows)] *)
Fixpoint join_rows (rows : list (list Z)) : list Z :=
  match rows with
  | [] => []
  | [row] => row
  | row :: rows' => row ++ 10 :: join_rows rows'
  end.

Definition conf2unicode (B : Board) : outcome (list Z) :=
  board <- draw_board B ;;
  Ret (join_rows board).

(** * Vocabulary of the statements *)

(** ** Squares, boards and moves *)

(** [piece] stands on the square [(x, y)]. *)
Definition at_square (x y : Z) (piece : Piece) : bool :=
  Z.eqb (pos_x piece) x && Z.eqb (pos_y piece) y.

(** The square of a piece. *)
Definition position (piece : Piece) : Z * Z := (pos_x piece, pos_y piece).

(** The board invariant: no two pieces of the list stand on one square. *)
Definition no_overlap (B : Board) : Prop := NoDup (map position (snd B)).

(** The board holds a king of the side. *)
Definition has_King (side_ : bool) (B : Board) : Prop :=
  exists king, In king (snd B) /\ kind king = King /\ side king = side_.

(** The search [is_checkmate] and [is_stalemate] both make: some piece of the
    side has a square of the board it can move to. *)
Definition has_legal_move (side_ : bool) (B : Board) : outcome bool :=
  any_m (fun piece =>
           if Bool.eqb (side piece) side_
           then any_m (fun x =>
                         any_m (fun y => can_move_to piece x y B)
                               (py_range 1 (fst B + 1)))
                      (py_range 1 (fst B + 1))
           else Ret false)
        (snd B).

(** The piece [move_to] puts on the target square. *)
Definition moved_piece (self : Piece) (pos_X pos_Y : Z) (B : Board) : Piece :=
  mkPiece (fresh_oid (self :: snd B)) (kind self) pos_X pos_Y (side self).

(** The pieces a move leaves in place: those standing neither on the mover's
    square nor on the target. *)
Definition bystanders (self : Piece) (pos_X pos_Y : Z) (B : Board) : list Piece :=
  filter (fun p => negb (at_square (pos_x self) (pos_y self) p)
                   && negb (at_square pos_X pos_Y p))
         (snd B).



(** ** Integer literals *)

(** Every character of [s] passes the test [P]. *)
Fixpoint string_forall (P : ascii -> bool) (s : string) : bool :=
  match s with
  | EmptyString => true
  | String c s' => P c && string_forall P s'
  end.

(** What may follow the first digit of a literal: digits, each of them
    possibly behind one underscore.  The list holds the digits' values. *)
Inductive digit_tail : string -> list Z -> Prop :=
| tail_end : digit_tail EmptyString []
| tail_digit (c : ascii) (s : string) (ds : list Z) :
    is_digit c = true -> digit_tail s ds ->
    digit_tail (String c s) (digit_value c :: ds)
| tail_underscore (c : ascii) (s : string) (ds : list Z) :
    is_digit c = true -> digit_tail s ds ->
    digit_tail (String "_" (String c s)) (digit_value c :: ds).

(** The number written by a list of digits, the first the most significant. *)
Definition decimal_value (ds : list Z) : Z :=
  fold_left (fun a d => 10 * a + d) ds 0.

(** A decimal integer literal and its value: white space, an optional sign,
    a digit, more digits with single underscores allowed between digits,
    white space; no more digits than the limit allows. *)
Definition int_literal (s : string) (v : Z) : Prop :=
  exists (ws1 sign : string) (c : ascii) (body ws2 : string) (ds : list Z),
    s = (ws1 ++ sign ++ String c body ++ ws2)%string /\
    string_forall int_space ws1 = true /\
    string_forall int_space ws2 = true /\
    (sign = EmptyString \/ sign = "+"%string \/ sign = "-"%string) /\
    is_digit c = true /\
    digit_tail body ds /\
    (length (digit_value c :: ds) <= int_max_str_digits)%nat /\
    v = if String.eqb sign "-"
        then - decimal_value (digit_value c :: ds)
        else decimal_value (digit_value c :: ds).

(** ** Texts *)

(** A character of a token: no white space and no comma. *)
Definition plain (c : ascii) : bool := negb (isspace c) && negb (Ascii.eqb c ",").





(** ** Boards of the test suite *)

(** The board of [test_is_check]: the white king on (2,2), a black bishop on
    (4,4) and the black king on (5,5); size 5. *)
Definition check_board : Board :=
  (5, [mkPiece 0 King 2 2 true; mkPiece 1 Bishop 4 4 false;
       mkPiece 2 King 5 5 false]).

(** The board of [test_is_checkmate1]: White king (2,5) and bishops (5,5),
    (3,1), (4,1); Black king (2,3) and bishops (5,3), (1,2); size 5. *)
Definition checkmate_board : Board :=
  (5, [mkPiece 0 King 2 5 true; mkPiece 1 Bishop 5 5 true;
       mkPiece 2 King 2 3 false; mkPiece 3 Bishop 5 3 false;
       mkPiece 4 Bishop 1 2 false; mkPiece 5 Bishop 3 1 true;
       mkPiece 6 Bishop 4 1 true]).

(** A legal capture: the white bishop on (4,4) takes the black bishop on
    (3,3); kings on (1,5) and (5,1). *)
Definition capture_board : Board :=
  (5, [mkPiece 0 Bishop 4 4 true; mkPiece 1 Bishop 3 3 false;
       mkPiece 2 King 1 5 true; mkPiece 3 King 5 1 false]).

(** The board [B1] of the test suite, with its pieces numbered in the order
    the test file creates them; [test_move_to1] moves the white bishop on
    (4,4) to (3,3), where a black bishop stands. *)
Definition B1 : Board :=
  (5, [mkPiece 0 Bishop 2 5 true; mkPiece 7 Bishop 3 3 false;
       mkPiece 1 Bishop 4 4 true; mkPiece 8 Bishop 5 3 false;
       mkPiece 2 Bishop 3 1 true; mkPiece 5 King 3 5 true;
       mkPiece 10 King 2 3 false]).

(** ** Further boards *)

(** Black to move is stalemated: the black king on (1,1) of a 3 x 3 board is
    not attacked, and the white king on (3,2) and the white bishop on (2,3)
    cover the three squares next to it. *)
Definition stalemate_board : Board :=
  (3, [mkPiece 0 King 1 1 false; mkPiece 1 King 3 2 true;
       mkPiece 2 Bishop 2 3 true]).

(** ** A system for the examples *)

Fixpoint has_NUL (name : string) : bool :=
  match name with
  | EmptyString => false
  | String c name' => Ascii.eqb c "000" || has_NUL name'
  end.

(** A letter or a digit of ASCII, or an underscore; a dot when [dots]. *)
Definition name_char (dots : bool) (c : ascii) : bool :=
  let n := ord c in
  ((48 <=? n) && (n <=? 57)) || ((65 <=? n) && (n <=? 90))
  || ((97 <=? n) && (n <=? 122)) || (n =? 95) || (dots && (n =? 46)).

(** A name of at most 255 such characters that does not begin with a dot. *)
Definition plain_name (name : string) : bool :=
  match name with
  | EmptyString => false
  | String c rest =>
      name_char false c && string_forall (name_char true) rest
      && (String.length name <=? 255)%nat
  end.

(** The example system answers as every system does for a name that holds a
    NUL character, with [ValueError], and for the empty name, with
    [FileNotFoundError]; it opens the plain names; it is not followed on any
    other name. *)
Definition example_open (mode : open_mode) (name : string) : outcome unit :=
  if has_NUL name then Raise (ValueError embedded_null_byte)
  else if String.eqb name "" then Raise FileNotFoundError
  else if plain_name name then Ret tt
  else Unmodelled.


(** ** Further vocabulary of the codecs *)

(** The code points [lower] changes: the capital letters of Latin-1. *)
Definition capital (n : Z) : bool :=
  ((65 <=? n) && (n <=? 90)) || ((192 <=? n) && (n <=? 222) && negb (n =? 215)).



(** ** Vocabulary of the move selector *)

(** The three nested loops of [find_black_move], over a list of pieces. *)
Definition black_search (B : Board) (pieces : list Piece)
  : outcome (option (Piece * Z * Z)) :=
  search_m (fun piece =>
    search_m (fun x =>
      search_m (fun y =>
        legal <- can_move_to piece x y B ;;
        if legal then Ret (Some (piece, x, y)) else Ret None)
      (py_range 1 (fst B + 1)))
    (py_range 1 (fst B + 1)))
  pieces.

(** A generator state for the examples: a counter, with the shuffle that
    reverses the list. *)
Definition reversing_shuffle (g : nat) (l : list Piece) : list Piece * nat :=
  (rev l, S g).

(** ** Vocabulary of the display *)

(** The character the grid shows for the square [(x, y)]: row [y - 1] from
    the top, column [x - 1] from the left. *)
Definition cell (board : list (list Z)) (x y : Z) : option Z :=
  match nth_error board (Z.to_nat (y - 1)) with
  | Some row => nth_error row (Z.to_nat (x - 1))
  | None => None
  end.

(** The last piece of the list that stands on the square. *)
Definition last_at (x y : Z) (pieces : list Piece) : option Piece :=
  find (at_square x y) (rev pieces).

(** A grid of [n] rows of [n] characters. *)
Definition square_grid (n : nat) (board : list (list Z)) : Prop :=
  length board = n /\ Forall (fun row => length row = n) board.

(** Both indices of the piece, [pos_x - 1] and [pos_y - 1], are indices into
    a list of length [n], from the front or, negative, from the end. *)
Definition fits (n : Z) (piece : Piece) : bool :=
  (- n <=? pos_x piece - 1) && (pos_x piece - 1 <? n)
  && (- n <=? pos_y piece - 1) && (pos_y piece - 1 <? n).

(** * Properties *)

(** ** Outcomes, loops and lists *)

(** A loop whose test always returns runs to its end or to the first hit. *)
Lemma any_m_total {A : Type} (f : A -> outcome bool) (l : list A) :
  (forall a, In a l -> exists b, f a = Ret b) ->
  exists b, any_m f l = Ret b /\
            (b = true <-> exists a, In a l /\ f a = Ret true).
Proof.
  induction l as [| a l IH]; intros Hf; simpl.
  - exists false; split; [reflexivity |].
    split; [discriminate | intros [a [[] _]]].
  - destruct (Hf a (or_introl eq_refl)) as [b Hb]; rewrite Hb; simpl.
    destruct b.
    + exists true; split; [reflexivity |].
      split; [intros _; exists a; auto | reflexivity].
    + destruct IH as [b' [Hb' Hiff]].
      { intros a' Ha'; apply Hf; right; exact Ha'. }
      exists b'; split; [exact Hb' |].
      rewrite Hiff; split.
      * intros [a' [Hin Ha']]; exists a'; auto.
      * intros [a' [[Heq | Hin] Ha']].
        -- subst a'; rewrite Hb in Ha'; discriminate.
        -- exists a'; auto.
Qed.

Lemma in_py_range (lo hi x : Z) : In x (py_range lo hi) <-> lo <= x < hi.
Proof.
  unfold py_range; rewrite in_map_iff; split.
  - intros [i [Hx Hi]]; apply in_seq in Hi; lia.
  - intros Hx; exists (Z.to_nat (x - lo)); split; [lia |].
    apply in_seq; lia.
Qed.

Lemma Kind_eqb_eq (a b : Kind) : Kind_eqb a b = true <-> a = b.
Proof. destruct a, b; simpl; split; congruence. Qed.

Lemma same_object_eq (p q : Piece) : same_object p q = true <-> p = q.
Proof.
  unfold same_object; destruct p, q; simpl.
  rewrite !andb_true_iff, Nat.eqb_eq, Kind_eqb_eq, !Z.eqb_eq, Bool.eqb_true_iff.
  split; [intros [[[[-> ->] ->] ->] ->]; reflexivity | intros H; inversion H; auto].
Qed.

Lemma same_object_neq (p q : Piece) : same_object p q = false <-> p <> q.
Proof.
  rewrite <- same_object_eq; destruct (same_object p q); split; congruence.
Qed.

Lemma at_square_iff (x y : Z) (p : Piece) :
  at_square x y p = true <-> pos_x p = x /\ pos_y p = y.
Proof. unfold at_square; rewrite andb_true_iff, !Z.eqb_eq; tauto. Qed.

Lemma is_piece_at_true (x y : Z) (B : Board) :
  is_piece_at x y B = true <->
  exists p, In p (snd B) /\ pos_x p = x /\ pos_y p = y.
Proof.
  unfold is_piece_at; rewrite existsb_exists.
  split; intros [p [Hin Hp]]; exists p; split; auto; apply (at_square_iff x y p); auto.
Qed.

Lemma is_piece_at_false (x y : Z) (B : Board) :
  is_piece_at x y B = false <->
  forall p, In p (snd B) -> ~ (pos_x p = x /\ pos_y p = y).
Proof.
  rewrite <- not_true_iff_false, is_piece_at_true; split.
  - intros H p Hin Hp; apply H; exists p; auto.
  - intros H [p [Hin Hp]]; exact (H p Hin Hp).
Qed.

(** Where [is_piece_at] answers yes, [piece_at] returns an occupant. *)
Lemma piece_at_present (x y : Z) (B : Board) :
  is_piece_at x y B = true ->
  exists q, piece_at x y B = Ret q /\ In q (snd B) /\ pos_x q = x /\ pos_y q = y.
Proof.
  unfold is_piece_at, piece_at; intros H.
  destruct (find _ (snd B)) as [q |] eqn:Hfind.
  - exists q; split; [reflexivity |].
    apply find_some in Hfind; destruct Hfind as [Hin Hq].
    split; [exact Hin | apply (at_square_iff x y q); exact Hq].
  - apply existsb_exists in H; destruct H as [p [Hin Hp]].
    rewrite (find_none _ _ Hfind p Hin) in Hp; discriminate.
Qed.

Lemma piece_at_Ret (x y : Z) (B : Board) (q : Piece) :
  piece_at x y B = Ret q -> In q (snd B) /\ pos_x q = x /\ pos_y q = y.
Proof.
  unfold piece_at; destruct (find _ (snd B)) as [q' |] eqn:Hfind; intros H;
    inversion H; subst q'.
  apply find_some in Hfind; destruct Hfind as [Hin Hq].
  split; [exact Hin | apply (at_square_iff x y q); exact Hq].
Qed.

Lemma list_remove_In (x : Piece) (l : list Piece) :
  In x l ->
  exists l1 l2, l = l1 ++ x :: l2 /\ ~ In x l1 /\ list_remove x l = Ret (l1 ++ l2).
Proof.
  induction l as [| y l IH]; intros Hin; [destruct Hin |]; simpl.
  destruct (same_object y x) eqn:Hyx.
  - apply same_object_eq in Hyx; subst y.
    exists [], l; simpl; auto.
  - apply same_object_neq in Hyx.
    destruct Hin as [Heq | Hin]; [congruence |].
    destruct (IH Hin) as [l1 [l2 [Hl [Hnot Hrem]]]].
    exists (y :: l1), l2; rewrite Hrem; simpl; subst l.
    repeat split; auto.
    intros [Heq | Hin1]; [congruence | auto].
Qed.

(** ** Reachability *)

(** The ray loop started [n] diagonal steps before the target, with at least
    [n] iterations allotted, returns; it returns true exactly when the [n]
    squares it walks over are free. *)
Lemma Bishop_ray_spec (B : Board) (step_x step_y pos_X pos_Y : Z) :
  step_x = 1 \/ step_x = -1 ->
  forall (n fuel : nat) (x y : Z),
    (n <= fuel)%nat ->
    pos_X = x + Z.of_nat n * step_x ->
    pos_Y = y + Z.of_nat n * step_y ->
    exists b,
      Bishop_ray fuel step_x step_y x y pos_X pos_Y B = Ret b /\
      (b = true <->
       forall k, 0 <= k < Z.of_nat n ->
                 is_piece_at (x + k * step_x) (y + k * step_y) B = false).
Proof.
  intros Hstep; induction n as [| n IH]; intros fuel x y Hfuel HX HY.
  - exists true; split.
    + replace pos_X with x by lia; replace pos_Y with y by lia.
      destruct fuel; simpl; rewrite !Z.eqb_refl; reflexivity.
    + split; [intros _ k Hk; lia | reflexivity].
  - destruct fuel as [| fuel]; [lia |].
    assert (Hne : Z.eqb x pos_X = false) by (apply Z.eqb_neq; lia).
    simpl; rewrite Hne; simpl.
    destruct (is_piece_at x y B) eqn:Hocc.
    + exists false; split; [reflexivity |].
      split; [discriminate |].
      intros H; specialize (H 0); rewrite !Z.mul_0_l, !Z.add_0_r in H.
      rewrite H in Hocc by lia; discriminate.
    + destruct (IH fuel (x + step_x) (y + step_y)) as [b [Hb Hiff]]; try lia.
      exists b; split; [exact Hb |].
      rewrite Hiff; split; intros H k Hk.
      * destruct (Z.eq_dec k 0) as [-> | Hk0].
        -- rewrite !Z.mul_0_l, !Z.add_0_r; exact Hocc.
        -- specialize (H (k - 1)).
           replace (x + step_x + (k - 1) * step_x) with (x + k * step_x) in H by lia.
           replace (y + step_y + (k - 1) * step_y) with (y + k * step_y) in H by lia.
           apply H; lia.
      * specialize (H (k + 1)).
        replace (x + (k + 1) * step_x) with (x + step_x + k * step_x) in H by lia.
        replace (y + (k + 1) * step_y) with (y + step_y + k * step_y) in H by lia.
        apply H; lia.
Qed.

(** [Bishop.can_reach] returns, and returns true only for a square of the
    board other than the bishop's own. *)
Lemma Bishop_can_reach_cases (self : Piece) (pos_X pos_Y : Z) (B : Board) :
  exists b,
    Bishop_can_reach self pos_X pos_Y B = Ret b /\
    (b = true ->
     (1 <= pos_X <= fst B /\ 1 <= pos_Y <= fst B) /\
     (pos_X, pos_Y) <> (pos_x self, pos_y self)).
Proof.
  unfold Bishop_can_reach.
  destruct ((1 <=? pos_X) && (pos_X <=? fst B) && (1 <=? pos_Y) && (pos_Y <=? fst B))
    eqn:Hbounds; simpl; [| exists false; split; [reflexivity | discriminate]].
  rewrite !andb_true_iff, !Z.leb_le in Hbounds.
  destruct (Z.eqb (pos_x self) pos_X && Z.eqb (pos_y self) pos_Y) eqn:Hsame;
    [exists false; split; [reflexivity | discriminate] |].
  rewrite andb_false_iff, !Z.eqb_neq in Hsame.
  destruct (Z.eqb (Z.abs (pos_x self - pos_X)) (Z.abs (pos_y self - pos_Y)))
    eqn:Hdiag; simpl; [| exists false; split; [reflexivity | discriminate]].
  apply Z.eqb_eq in Hdiag.
  set (step_x := if pos_X >? pos_x self then 1 else -1).
  set (step_y := if pos_Y >? pos_y self then 1 else -1).
  assert (Hsx : step_x = Z.sgn (pos_X - pos_x self)).
  { unfold step_x; destruct (Z.gtb_spec pos_X (pos_x self)); lia. }
  assert (Hsy : step_y = Z.sgn (pos_Y - pos_y self)).
  { unfold step_y; destruct (Z.gtb_spec pos_Y (pos_y self)); lia. }
  destruct (Bishop_ray_spec B step_x step_y pos_X pos_Y) with
    (n := Z.to_nat (Z.abs (pos_x self - pos_X) - 1))
    (fuel := Z.to_nat (Z.abs (pos_x self - pos_X)))
    (x := pos_x self + step_x) (y := pos_y self + step_y) as [b [Hb _]];
    try lia.
  exists b; split; [exact Hb |].
  intros _; split; [lia |].
  intros Heq; inversion Heq; lia.
Qed.

(** C4.  [Bishop.can_reach] always returns, and it returns true exactly when
    the target is on the board [1, N] x [1, N], is not the bishop's own
    square, lies on a diagonal through the bishop ([|dx| = |dy|]), and every
    square strictly between the two along that diagonal is unoccupied, by a
    piece of either side; so off-diagonal targets, targets off the board and
    targets behind an intervening piece give false.  The squares strictly
    between are the [(pos_x + k * sgn dx, pos_y + k * sgn dy)] for
    [0 < k < |dx|]. *)
Theorem Bishop_can_reach_spec (self : Piece) (pos_X pos_Y : Z) (B : Board) :
  exists b,
    Bishop_can_reach self pos_X pos_Y B = Ret b /\
    (b = true <->
     (1 <= pos_X <= fst B /\ 1 <= pos_Y <= fst B) /\
     (pos_X, pos_Y) <> (pos_x self, pos_y self) /\
     Z.abs (pos_X - pos_x self) = Z.abs (pos_Y - pos_y self) /\
     forall k, 0 < k < Z.abs (pos_X - pos_x self) ->
               is_piece_at (pos_x self + k * Z.sgn (pos_X - pos_x self))
                           (pos_y self + k * Z.sgn (pos_Y - pos_y self)) B = false).
Proof.
  unfold Bishop_can_reach.
  destruct ((1 <=? pos_X) && (pos_X <=? fst B) && (1 <=? pos_Y) && (pos_Y <=? fst B))
    eqn:Hbounds; simpl.
  2:{ exists false; split; [reflexivity |].
      split; [discriminate | intros [Hb _]].
      rewrite !andb_false_iff, !Z.leb_gt in Hbounds; lia. }
  rewrite !andb_true_iff, !Z.leb_le in Hbounds.
  destruct (Z.eqb (pos_x self) pos_X && Z.eqb (pos_y self) pos_Y) eqn:Hsame.
  { exists false; split; [reflexivity |].
    split; [discriminate | intros [_ [Hne _]]].
    rewrite andb_true_iff, !Z.eqb_eq in Hsame; destruct Hsame as [<- <-].
    congruence. }
  rewrite andb_false_iff, !Z.eqb_neq in Hsame.
  destruct (Z.eqb (Z.abs (pos_x self - pos_X)) (Z.abs (pos_y self - pos_Y)))
    eqn:Hdiag; simpl.
  2:{ exists false; split; [reflexivity |].
      split; [discriminate | intros [_ [_ [Hd _]]]].
      apply Z.eqb_neq in Hdiag; lia. }
  apply Z.eqb_eq in Hdiag.
  set (step_x := if pos_X >? pos_x self then 1 else -1).
  set (step_y := if pos_Y >? pos_y self then 1 else -1).
  set (d := Z.abs (pos_x self - pos_X)) in *.
  assert (Hd : 0 < d) by (unfold d; lia).
  assert (Hsx : step_x = Z.sgn (pos_X - pos_x self)).
  { unfold step_x; destruct (Z.gtb_spec pos_X (pos_x self)); lia. }
  assert (Hsy : step_y = Z.sgn (pos_Y - pos_y self)).
  { unfold step_y; destruct (Z.gtb_spec pos_Y (pos_y self)); lia. }
  destruct (Bishop_ray_spec B step_x step_y pos_X pos_Y) with
    (n := Z.to_nat (d - 1)) (fuel := Z.to_nat d)
    (x := pos_x self + step_x) (y := pos_y self + step_y) as [b [Hb Hiff]];
    try lia.
  exists b; split; [exact Hb |].
  rewrite Hiff, <- Hsx, <- Hsy.
  replace (Z.abs (pos_X - pos_x self)) with d by lia.
  split.
  - intros H; repeat split; try lia.
    + intros Heq; inversion Heq; lia.
    + intros k Hk; specialize (H (k - 1)).
      replace (pos_x self + step_x + (k - 1) * step_x)
        with (pos_x self + k * step_x) in H by lia.
      replace (pos_y self + step_y + (k - 1) * step_y)
        with (pos_y self + k * step_y) in H by lia.
      apply H; lia.
  - intros [_ [_ [_ H]]] k Hk; specialize (H (k + 1)).
    replace (pos_x self + (k + 1) * step_x)
      with (pos_x self + step_x + k * step_x) in H by lia.
    replace (pos_y self + (k + 1) * step_y)
      with (pos_y self + step_y + k * step_y) in H by lia.
    apply H; lia.
Qed.

(** [King.can_reach] is the test [|dx| <= 1 and |dy| <= 1] and nothing more. *)
Lemma King_can_reach_iff (self : Piece) (pos_X pos_Y : Z) (B : Board) :
  exists b,
    King_can_reach self pos_X pos_Y B = Ret b /\
    (b = true <->
     Z.max (Z.abs (pos_X - pos_x self)) (Z.abs (pos_Y - pos_y self)) <= 1).
Proof.
  unfold King_can_reach; eexists; split; [reflexivity |].
  rewrite andb_true_iff, !Z.leb_le; lia.
Qed.

(** C2 (the code departs from the claim).  A king is told it can reach the
    square it stands on: the white king on (2,2) of a 5 x 5 board,
    asked about (2,2), gets true, where [Bishop.can_reach] and
    [King.can_move_to] both answer false for the piece's own square. *)
Theorem King_can_reach_own_square :
  let king := mkPiece 0 King 2 2 true in
  let B : Board := (5, [king; mkPiece 1 King 5 5 false]) in
  King_can_reach king 2 2 B = Ret true /\
  Bishop_can_reach (mkPiece 0 Bishop 2 2 true) 2 2
                   (5, [mkPiece 0 Bishop 2 2 true; mkPiece 1 King 5 5 false])
  = Ret false /\
  King_can_move_to king 2 2 B = Ret false.
Proof. repeat split. Qed.

Lemma can_reach_returns (self : Piece) (pos_X pos_Y : Z) (B : Board) :
  exists b, can_reach self pos_X pos_Y B = Ret b.
Proof.
  unfold can_reach; destruct (kind self).
  - destruct (King_can_reach_iff self pos_X pos_Y B) as [b [Hb _]]; eauto.
  - destruct (Bishop_can_reach_cases self pos_X pos_Y B) as [b [Hb _]]; eauto.
Qed.

(** ** Check *)

Lemma is_King_of_iff (side_ : bool) (p : Piece) :
  is_King_of side_ p = true <-> kind p = King /\ side p = side_.
Proof.
  unfold is_King_of; rewrite andb_true_iff, Kind_eqb_eq, Bool.eqb_true_iff; tauto.
Qed.

Lemma find_King_present (side_ : bool) (B : Board) :
  has_King side_ B ->
  exists king, find (is_King_of side_) (snd B) = Some king /\
               In king (snd B) /\ kind king = King /\ side king = side_.
Proof.
  intros [k [Hin [Hk Hs]]].
  destruct (find (is_King_of side_) (snd B)) as [king |] eqn:Hfind.
  - exists king; split; [reflexivity |].
    apply find_some in Hfind; destruct Hfind as [Hin' Hking].
    apply is_King_of_iff in Hking; tauto.
  - pose proof (find_none _ _ Hfind k Hin) as Hnot.
    assert (is_King_of side_ k = true) by (apply is_King_of_iff; auto).
    congruence.
Qed.

(** Once the king is found, [is_check] returns, and what it returns. *)
Lemma is_check_found (side_ : bool) (B : Board) (king : Piece) :
  find (is_King_of side_) (snd B) = Some king ->
  exists b,
    is_check side_ B = Ret b /\
    (b = true <->
     exists q, In q (snd B) /\ side q <> side_ /\
               can_reach q (pos_x king) (pos_y king) B = Ret true).
Proof.
  intros Hfind; unfold is_check; rewrite Hfind.
  destruct (any_m_total
              (fun piece =>
                 if negb (Bool.eqb (side piece) side_)
                 then can_reach piece (pos_x king) (pos_y king) B
                 else Ret false) (snd B)) as [b [Hb Hiff]].
  { intros p _; destruct (negb _); [apply can_reach_returns | eauto]. }
  exists b; split; [exact Hb |].
  rewrite Hiff; split; intros [q [Hin Hq]]; exists q; split; auto.
  - destruct (Bool.eqb (side q) side_) eqn:Hs; simpl in Hq; [discriminate |].
    apply Bool.eqb_false_iff in Hs; auto.
  - destruct Hq as [Hs Hq]; apply Bool.eqb_false_iff in Hs; rewrite Hs; exact Hq.
Qed.

Lemma is_check_returns (side_ : bool) (B : Board) :
  has_King side_ B -> exists b, is_check side_ B = Ret b.
Proof.
  intros H; destruct (find_King_present side_ B H) as [king [Hfind _]].
  destruct (is_check_found side_ B king Hfind) as [b [Hb _]]; eauto.
Qed.

(** The king [next(...)] yields stands in the list with no king of the side
    before it. *)
Lemma find_King_first (side_ : bool) (l : list Piece) (king : Piece) :
  find (is_King_of side_) l = Some king ->
  exists before after,
    l = before ++ king :: after /\
    kind king = King /\ side king = side_ /\
    forall p, In p before -> ~ (kind p = King /\ side p = side_).
Proof.
  induction l as [| p l IH]; [discriminate |].
  simpl; destruct (is_King_of side_ p) eqn:Hp.
  - intros Hk; inversion Hk; subst p.
    apply is_King_of_iff in Hp; destruct Hp.
    exists [], l; repeat split; auto.
  - intros Hfind; destruct (IH Hfind) as [before [after [Hl [Hk [Hs Hnone]]]]].
    exists (p :: before), after; subst l; repeat split; auto.
    intros q [<- | Hq]; [| auto].
    rewrite <- is_King_of_iff; congruence.
Qed.

(** C3.  [is_check] raises its [ValueError], "No King found for the specific
    side", when the board holds no king of the side.  When the board holds
    one, [is_check] returns, and it returns true exactly when some piece of
    the other side [can_reach] the square of that king; the king in question
    is the first king of the side in the board's list. *)
Theorem is_check_spec (side_ : bool) (B : Board) :
  ((forall p, In p (snd B) -> ~ (kind p = King /\ side p = side_)) ->
   is_check side_ B = Raise (ValueError no_King_found)) /\
  (has_King side_ B ->
   exists before king after b,
     snd B = before ++ king :: after /\
     kind king = King /\ side king = side_ /\
     (forall p, In p before -> ~ (kind p = King /\ side p = side_)) /\
     is_check side_ B = Ret b /\
     (b = true <->
      exists q, In q (snd B) /\ side q <> side_ /\
                can_reach q (pos_x king) (pos_y king) B = Ret true)).
Proof.
  split.
  - intros Hnone; unfold is_check.
    destruct (find (is_King_of side_) (snd B)) as [king |] eqn:Hfind;
      [| reflexivity].
    apply find_some in Hfind; destruct Hfind as [Hin Hking].
    apply is_King_of_iff in Hking; exfalso; exact (Hnone king Hin Hking).
  - intros Hking.
    destruct (find_King_present side_ B Hking) as [king [Hfind _]].
    destruct (find_King_first side_ (snd B) king Hfind)
      as [before [after [HB [Hk [Hs Hfirst]]]]].
    destruct (is_check_found side_ B king Hfind) as [b [Hb Hiff]].
    exists before, king, after, b; repeat split; auto; apply Hiff.
Qed.

Lemma check_board_has_King : has_King true check_board.
Proof.
  exists (mkPiece 0 King 2 2 true); simpl; repeat split; tauto.
Defined.

Lemma is_check_spec_witness :
  exists before king after b,
    snd check_board = before ++ king :: after /\
    kind king = King /\ side king = true /\
    (forall p, In p before -> ~ (kind p = King /\ side p = true)) /\
    is_check true check_board = Ret b /\
    (b = true <->
     exists q, In q (snd check_board) /\ side q <> true /\
               can_reach q (pos_x king) (pos_y king) check_board = Ret true).
Proof.
  exact (proj2 (is_check_spec true check_board) check_board_has_King).
Defined.

(** ** Legality *)

(** The part [Bishop.can_move_to] and [King.can_move_to] have in common: the
    test for a capture of one's own piece, then the move tried out on a copy
    and the test for check on it. *)
Lemma capture_then_check_iff (self : Piece) (pos_X pos_Y : Z) (B : Board)
      (moved : outcome Board) :
  (own <-
     (if is_piece_at pos_X pos_Y B
      then piece <- piece_at pos_X pos_Y B ;;
           Ret (Bool.eqb (side piece) (side self))
      else Ret false) ;;
   if own then Ret false
   else
     temp_board <- moved ;;
     check <- is_check (side self) temp_board ;;
     if check then Ret false else Ret true) = Ret true
  <->
  (is_piece_at pos_X pos_Y B = false \/
   exists q, piece_at pos_X pos_Y B = Ret q /\ side q <> side self) /\
  (exists B', moved = Ret B' /\ is_check (side self) B' = Ret false).
Proof.
  assert (Htail :
            (temp_board <- moved ;;
             check <- is_check (side self) temp_board ;;
             if check then Ret false else Ret true) = Ret true
            <-> exists B', moved = Ret B' /\ is_check (side self) B' = Ret false).
  { destruct moved as [B' | e | ]; simpl.
    - destruct (is_check (side self) B') as [[|] | e | ] eqn:Hc; simpl;
        (split; [intros H; try discriminate; exists B'; auto
                | intros [B'' [HB Hf]]; inversion HB; subst B'';
                  congruence]).
    - split; [discriminate | intros [B' [HB _]]; discriminate].
    - split; [discriminate | intros [B' [HB _]]; discriminate]. }
  destruct (is_piece_at pos_X pos_Y B) eqn:Hocc.
  - destruct (piece_at_present pos_X pos_Y B Hocc) as [q [Hq _]].
    rewrite Hq; simpl.
    destruct (Bool.eqb (side q) (side self)) eqn:Hside.
    + apply Bool.eqb_prop in Hside.
      split; [discriminate |].
      intros [[Hf | [q' [Hq' Hne]]] _]; [discriminate |].
      inversion Hq'; subst q'; contradiction.
    + apply Bool.eqb_false_iff in Hside.
      rewrite Htail; split; [intros H; split; [right; exists q |]; auto | tauto].
  - simpl; rewrite Htail; tauto.
Qed.

(** C1.  For a king as for a bishop, [can_move_to] returns true exactly when
    the target is on the board, is not the piece's own square, [can_reach]
    holds, the target is empty or held by a piece of the other side, and the
    board [move_to] produces does not have the mover's own king in check. *)
Theorem can_move_to_spec (self : Piece) (pos_X pos_Y : Z) (B : Board) :
  can_move_to self pos_X pos_Y B = Ret true
  <->
  (1 <= pos_X <= fst B /\ 1 <= pos_Y <= fst B) /\
  (pos_X, pos_Y) <> (pos_x self, pos_y self) /\
  can_reach self pos_X pos_Y B = Ret true /\
  (is_piece_at pos_X pos_Y B = false \/
   exists q, piece_at pos_X pos_Y B = Ret q /\ side q <> side self) /\
  (exists B', move_to self pos_X pos_Y B = Ret B' /\
              is_check (side self) B' = Ret false).
Proof.
  unfold can_move_to, can_reach, move_to; destruct (kind self).
  - (* King *)
    unfold King_can_move_to, King_can_reach.
    destruct ((1 <=? pos_X) && (pos_X <=? fst B) && (1 <=? pos_Y)
              && (pos_Y <=? fst B)) eqn:Hbounds; simpl.
    2:{ split; [discriminate | intros [Hb _]].
        rewrite !andb_false_iff, !Z.leb_gt in Hbounds; lia. }
    rewrite !andb_true_iff, !Z.leb_le in Hbounds.
    destruct (Z.eqb (pos_x self) pos_X && Z.eqb (pos_y self) pos_Y) eqn:Hsame.
    { split; [discriminate | intros [_ [Hne _]]].
      rewrite andb_true_iff, !Z.eqb_eq in Hsame; destruct Hsame as [<- <-].
      congruence. }
    rewrite andb_false_iff, !Z.eqb_neq in Hsame.
    destruct (Z.gtb_spec (Z.max (Z.abs (pos_x self - pos_X))
                                (Z.abs (pos_y self - pos_Y))) 1) as [Hfar | Hnear].
    { split; [discriminate | intros [_ [_ [Hr _]]]].
      inversion Hr as [Hr']; rewrite andb_true_iff, !Z.leb_le in Hr'; lia. }
    rewrite capture_then_check_iff.
    assert (Hreach : (Z.abs (pos_x self - pos_X) <=? 1)
                     && (Z.abs (pos_y self - pos_Y) <=? 1) = true).
    { rewrite andb_true_iff, !Z.leb_le; lia. }
    rewrite Hreach.
    assert ((pos_X, pos_Y) <> (pos_x self, pos_y self)).
    { intros Heq; inversion Heq; lia. }
    tauto.
  - (* Bishop *)
    unfold Bishop_can_move_to.
    destruct (Bishop_can_reach_cases self pos_X pos_Y B) as [reach [Hreach Hcase]].
    rewrite Hreach; simpl.
    destruct reach; simpl.
    + rewrite capture_then_check_iff.
      specialize (Hcase eq_refl); tauto.
    + split; [discriminate | intros [_ [_ [Hr _]]]; discriminate].
Qed.

(** A legal target is never the mover's own square. *)
Lemma legal_target_differs (self : Piece) (pos_X pos_Y : Z) (B : Board) :
  can_move_to self pos_X pos_Y B = Ret true ->
  (pos_X, pos_Y) <> (pos_x self, pos_y self).
Proof.
  unfold can_move_to; destruct (kind self).
  - unfold King_can_move_to.
    destruct (negb _); [discriminate |].
    destruct (Z.eqb (pos_x self) pos_X && Z.eqb (pos_y self) pos_Y) eqn:Hsame;
      [discriminate |].
    rewrite andb_false_iff, !Z.eqb_neq in Hsame.
    intros _ Heq; inversion Heq; lia.
  - unfold Bishop_can_move_to.
    destruct (Bishop_can_reach_cases self pos_X pos_Y B) as [reach [Hreach Hcase]].
    rewrite Hreach; simpl.
    destruct reach; simpl; [| discriminate].
    intros _; apply Hcase; reflexivity.
Qed.

(** ** Moves *)

Lemma move_to_unfold (self : Piece) (pos_X pos_Y : Z) (B : Board) :
  move_to self pos_X pos_Y B =
  (new_pieces <-
     (if is_piece_at pos_X pos_Y B
      then target_piece <- piece_at pos_X pos_Y B ;;
           list_remove target_piece
                       (filter (fun piece => negb (same_object piece self)) (snd B))
      else Ret (filter (fun piece => negb (same_object piece self)) (snd B))) ;;
   Ret (fst B, new_pieces ++ [moved_piece self pos_X pos_Y B])).
Proof.
  unfold move_to, King_move_to, Bishop_move_to, moved_piece.
  destruct (kind self) eqn:Hk; reflexivity.
Qed.

Lemma fresh_oid_above (live : list Piece) (p : Piece) :
  In p live -> (oid p < fresh_oid live)%nat.
Proof.
  unfold fresh_oid; induction live as [| q live IH]; intros Hin; [destruct Hin |].
  simpl; destruct Hin as [-> | Hin]; [lia | specialize (IH Hin); lia].
Qed.

(** The new piece is a new object. *)
Lemma moved_piece_fresh (self : Piece) (pos_X pos_Y : Z) (B : Board) :
  ~ In (oid (moved_piece self pos_X pos_Y B)) (map oid (self :: snd B)).
Proof.
  unfold moved_piece; cbn [oid]; intros Hin.
  apply in_map_iff in Hin; destruct Hin as [p [Hoid Hin]].
  apply fresh_oid_above in Hin; lia.
Qed.

Lemma In_filter_other (self p : Piece) (l : list Piece) :
  In p (filter (fun piece => negb (same_object piece self)) l) <->
  In p l /\ p <> self.
Proof.
  rewrite filter_In, negb_true_iff, same_object_neq; tauto.
Qed.

(** A move to a square other than the mover's own never fails, and keeps every
    piece other than the mover and the piece found on the target square. *)
Lemma move_to_returns (self : Piece) (pos_X pos_Y : Z) (B : Board) :
  (pos_X, pos_Y) <> (pos_x self, pos_y self) ->
  exists rest,
    move_to self pos_X pos_Y B
    = Ret (fst B, rest ++ [moved_piece self pos_X pos_Y B]) /\
    forall p, In p (snd B) -> p <> self ->
              piece_at pos_X pos_Y B <> Ret p -> In p rest.
Proof.
  intros Hne; rewrite move_to_unfold.
  destruct (is_piece_at pos_X pos_Y B) eqn:Hocc.
  - destruct (piece_at_present pos_X pos_Y B Hocc) as [q [Hq [Hin [Hx Hy]]]].
    rewrite Hq; simpl.
    assert (Hqs : q <> self) by (intros ->; apply Hne; congruence).
    destruct (list_remove_In q
                (filter (fun piece => negb (same_object piece self)) (snd B)))
      as [l1 [l2 [Hl [_ Hrem]]]].
    { apply In_filter_other; auto. }
    rewrite Hrem; simpl; exists (l1 ++ l2); split; [reflexivity |].
    intros p Hp Hps Hpq.
    assert (Hpf : In p (l1 ++ q :: l2)) by (rewrite <- Hl; apply In_filter_other; auto).
    apply in_app_or in Hpf; apply in_or_app.
    destruct Hpf as [H1 | [H2 | H2]]; auto.
    subst p; contradiction.
  - simpl; eexists; split; [reflexivity |].
    intros p Hp Hps _; apply In_filter_other; auto.
Qed.

(** The mover's side keeps a king through a move that captures no piece of
    that side. *)
Lemma moved_board_has_King (self : Piece) (pos_X pos_Y : Z) (B : Board)
      (rest : list Piece) :
  has_King (side self) B ->
  (forall p, In p (snd B) -> p <> self ->
             piece_at pos_X pos_Y B <> Ret p -> In p rest) ->
  (forall q, piece_at pos_X pos_Y B = Ret q -> side q <> side self) ->
  has_King (side self) (fst B, rest ++ [moved_piece self pos_X pos_Y B]).
Proof.
  intros [king [Hkin [Hkk Hks]]] Hkeep Hcapt.
  destruct (kind self) eqn:Hkind.
  - exists (moved_piece self pos_X pos_Y B); simpl.
    split; [apply in_or_app; right; left; reflexivity |].
    unfold moved_piece; simpl; auto.
  - exists king; simpl; split; [| auto].
    apply in_or_app; left; apply Hkeep; auto.
    + intros ->; congruence.
    + intros Hq; apply (Hcapt king Hq); exact Hks.
Qed.

Lemma capture_then_check_returns (self : Piece) (pos_X pos_Y : Z) (B : Board)
      (moved : outcome Board) :
  moved = move_to self pos_X pos_Y B ->
  has_King (side self) B ->
  (pos_X, pos_Y) <> (pos_x self, pos_y self) ->
  exists b,
    (own <-
       (if is_piece_at pos_X pos_Y B
        then piece <- piece_at pos_X pos_Y B ;;
             Ret (Bool.eqb (side piece) (side self))
        else Ret false) ;;
     if own then Ret false
     else
       temp_board <- moved ;;
       check <- is_check (side self) temp_board ;;
       if check then Ret false else Ret true) = Ret b.
Proof.
  intros -> Hking Hne.
  destruct (move_to_returns self pos_X pos_Y B Hne) as [rest [Hmove Hkeep]].
  assert (Hafter : (forall q, piece_at pos_X pos_Y B = Ret q -> side q <> side self) ->
            exists b,
              (temp_board <- move_to self pos_X pos_Y B ;;
               check <- is_check (side self) temp_board ;;
               if check then Ret false else Ret true) = Ret b).
  { intros Hcapt; rewrite Hmove; simpl.
    destruct (is_check_returns (side self)
                (fst B, rest ++ [moved_piece self pos_X pos_Y B])) as [c Hc].
    - apply moved_board_has_King; assumption.
    - rewrite Hc; simpl; destruct c; eauto. }
  destruct (is_piece_at pos_X pos_Y B) eqn:Hocc.
  - destruct (piece_at_present pos_X pos_Y B Hocc) as [q [Hq _]].
    rewrite Hq in *; simpl.
    destruct (Bool.eqb (side q) (side self)) eqn:Hside; [eauto |].
    apply Hafter; intros q' Hq'; inversion Hq'; subst q'.
    apply Bool.eqb_false_iff; exact Hside.
  - simpl; apply Hafter; intros q Hq.
    apply piece_at_Ret in Hq; destruct Hq as [Hin Hq].
    apply (proj1 (is_piece_at_false pos_X pos_Y B)) in Hq; tauto.
Qed.

(** With a king of its side on the board, a piece's [can_move_to] returns:
    neither the trial move nor the test for check on its result fails. *)
Lemma can_move_to_returns (self : Piece) (pos_X pos_Y : Z) (B : Board) :
  has_King (side self) B ->
  exists b, can_move_to self pos_X pos_Y B = Ret b.
Proof.
  intros Hking; unfold can_move_to; destruct (kind self) eqn:Hkind.
  - unfold King_can_move_to.
    destruct (negb _); [eauto |].
    destruct (Z.eqb (pos_x self) pos_X && Z.eqb (pos_y self) pos_Y) eqn:Hsame;
      [eauto |].
    destruct (_ >? 1); [eauto |].
    apply capture_then_check_returns; auto.
    + unfold move_to; rewrite Hkind; reflexivity.
    + rewrite andb_false_iff, !Z.eqb_neq in Hsame.
      intros Heq; inversion Heq; lia.
  - unfold Bishop_can_move_to.
    destruct (Bishop_can_reach_cases self pos_X pos_Y B) as [reach [Hreach Hcase]].
    rewrite Hreach; simpl.
    destruct reach; simpl; [| eauto].
    apply capture_then_check_returns; auto.
    + unfold move_to; rewrite Hkind; reflexivity.
    + apply Hcase; reflexivity.
Qed.

(** ** Checkmate and stalemate *)

(** With a king of the side on the board the search for a legal move returns,
    and it returns true exactly when some piece of the side has a square of
    the board it can move to. *)
Lemma has_legal_move_iff (side_ : bool) (B : Board) :
  has_King side_ B ->
  exists b,
    has_legal_move side_ B = Ret b /\
    (b = true <->
     exists p x y, In p (snd B) /\ side p = side_ /\
                   1 <= x <= fst B /\ 1 <= y <= fst B /\
                   can_move_to p x y B = Ret true).
Proof.
  intros Hking; unfold has_legal_move.
  assert (Hrow : forall p x, side p = side_ ->
            exists b,
              any_m (fun y => can_move_to p x y B) (py_range 1 (fst B + 1)) = Ret b /\
              (b = true <->
               exists y, 1 <= y <= fst B /\ can_move_to p x y B = Ret true)).
  { intros p x Hp.
    destruct (any_m_total (fun y => can_move_to p x y B) (py_range 1 (fst B + 1)))
      as [b [Hb Hiff]].
    { intros y _; apply can_move_to_returns; rewrite Hp; exact Hking. }
    exists b; split; [exact Hb |].
    rewrite Hiff; split; intros [y [Hy Hm]]; exists y; split; auto;
      apply in_py_range in Hy || apply in_py_range; lia. }
  assert (Hpiece : forall p, side p = side_ ->
            exists b,
              any_m (fun x => any_m (fun y => can_move_to p x y B)
                                    (py_range 1 (fst B + 1)))
                    (py_range 1 (fst B + 1)) = Ret b /\
              (b = true <->
               exists x y, 1 <= x <= fst B /\ 1 <= y <= fst B /\
                           can_move_to p x y B = Ret true)).
  { intros p Hp.
    destruct (any_m_total
                (fun x => any_m (fun y => can_move_to p x y B)
                                (py_range 1 (fst B + 1)))
                (py_range 1 (fst B + 1))) as [b [Hb Hiff]].
    { intros x _; destruct (Hrow p x Hp) as [b [Hb _]]; eauto. }
    exists b; split; [exact Hb |].
    rewrite Hiff; split.
    - intros [x [Hx Hm]]; apply in_py_range in Hx.
      destruct (Hrow p x Hp) as [b' [Hb' Hiff']].
      rewrite Hb' in Hm; inversion Hm; subst b'.
      destruct (proj1 Hiff' eq_refl) as [y [Hy Hy']].
      exists x, y; repeat split; auto; lia.
    - intros [x [y [Hx [Hy Hm]]]]; exists x; split; [apply in_py_range; lia |].
      destruct (Hrow p x Hp) as [b' [Hb' Hiff']].
      rewrite Hb'; f_equal; apply Hiff'; exists y; auto. }
  destruct (any_m_total
              (fun piece =>
                 if Bool.eqb (side piece) side_
                 then any_m (fun x => any_m (fun y => can_move_to piece x y B)
                                            (py_range 1 (fst B + 1)))
                            (py_range 1 (fst B + 1))
                 else Ret false) (snd B)) as [b [Hb Hiff]].
  { intros p _; destruct (Bool.eqb (side p) side_) eqn:Hs; [| eauto].
    apply Bool.eqb_prop in Hs; destruct (Hpiece p Hs) as [b [Hb _]]; eauto. }
  exists b; split; [exact Hb |].
  rewrite Hiff; split.
  - intros [p [Hin Hm]].
    destruct (Bool.eqb (side p) side_) eqn:Hs; [| discriminate].
    apply Bool.eqb_prop in Hs.
    destruct (Hpiece p Hs) as [b' [Hb' Hiff']].
    rewrite Hb' in Hm; inversion Hm; subst b'.
    destruct (proj1 Hiff' eq_refl) as [x [y H]].
    exists p, x, y; tauto.
  - intros [p [x [y [Hin [Hs [Hx [Hy Hm]]]]]]]; exists p; split; [exact Hin |].
    destruct (Hpiece p Hs) as [b' [Hb' Hiff']].
    replace (Bool.eqb (side p) side_) with true
      by (symmetry; apply Bool.eqb_true_iff; exact Hs).
    rewrite Hb'; f_equal; apply Hiff'; exists x, y; auto.
Qed.

Lemma is_checkmate_iff (side_ : bool) (B : Board) :
  has_King side_ B ->
  exists check mate,
    is_check side_ B = Ret check /\
    is_checkmate side_ B = Ret mate /\
    (mate = true <->
     check = true /\
     forall p x y, In p (snd B) -> side p = side_ ->
                   1 <= x <= fst B -> 1 <= y <= fst B ->
                   can_move_to p x y B <> Ret true).
Proof.
  intros Hking.
  destruct (is_check_returns side_ B Hking) as [check Hcheck].
  destruct (has_legal_move_iff side_ B Hking) as [escape [Hescape Hiff]].
  unfold is_checkmate; fold (has_legal_move side_ B).
  rewrite Hcheck, Hescape; simpl.
  exists check; destruct check; simpl.
  - exists (negb escape); repeat split; try (destruct escape; reflexivity).
    + intros p x y Hin Hs Hx Hy Hm.
      assert (escape = true) by (apply Hiff; exists p, x, y; auto).
      subst escape; discriminate.
    + intros [_ Hnone]; destruct escape; [| reflexivity].
      destruct (proj1 Hiff eq_refl) as [p [x [y [Hin [Hs [Hx [Hy Hm]]]]]]].
      exfalso; exact (Hnone p x y Hin Hs Hx Hy Hm).
  - exists false; repeat split; try discriminate.
    intros [H _]; discriminate.
Qed.

Lemma is_stalemate_iff (side_ : bool) (B : Board) :
  has_King side_ B ->
  exists check stale,
    is_check side_ B = Ret check /\
    is_stalemate side_ B = Ret stale /\
    (stale = true <->
     check = false /\
     forall p x y, In p (snd B) -> side p = side_ ->
                   1 <= x <= fst B -> 1 <= y <= fst B ->
                   can_move_to p x y B <> Ret true).
Proof.
  intros Hking.
  destruct (is_check_returns side_ B Hking) as [check Hcheck].
  destruct (has_legal_move_iff side_ B Hking) as [escape [Hescape Hiff]].
  unfold is_stalemate; fold (has_legal_move side_ B).
  rewrite Hcheck, Hescape; simpl.
  exists check; destruct check; simpl.
  - exists false; repeat split; try discriminate.
    intros [H _]; discriminate.
  - exists (negb escape); repeat split; try (destruct escape; reflexivity).
    + intros p x y Hin Hs Hx Hy Hm.
      assert (escape = true) by (apply Hiff; exists p, x, y; auto).
      subst escape; discriminate.
    + intros [_ Hnone]; destruct escape; [| reflexivity].
      destruct (proj1 Hiff eq_refl) as [p [x [y [Hin [Hs [Hx [Hy Hm]]]]]]].
      exfalso; exact (Hnone p x y Hin Hs Hx Hy Hm).
Qed.

(** C5.  On a board with a king of the side, [is_checkmate] returns; it
    returns false when [is_check] is false, and when [is_check] is true it
    returns true exactly when no piece of the side has a square [(x, y)],
    [1 <= x, y <= N], with [can_move_to] true.  On the size-5 board of the
    test suite, Black is checkmated. *)
Theorem is_checkmate_spec :
  (forall side_ B,
      has_King side_ B ->
      exists check mate,
        is_check side_ B = Ret check /\
        is_checkmate side_ B = Ret mate /\
        (check = false -> mate = false) /\
        (check = true ->
         (mate = true <->
          forall p x y, In p (snd B) -> side p = side_ ->
                        1 <= x <= fst B -> 1 <= y <= fst B ->
                        can_move_to p x y B <> Ret true))) /\
  is_checkmate false checkmate_board = Ret true.
Proof.
  split; [| vm_compute; reflexivity].
  intros side_ B Hking.
  destruct (is_checkmate_iff side_ B Hking) as [check [mate [Hc [Hm Hiff]]]].
  exists check, mate; split; [exact Hc |]; split; [exact Hm |]; split.
  - intros ->; destruct mate; [| reflexivity].
    destruct (proj1 Hiff eq_refl); discriminate.
  - intros Hcheck; split.
    + intros Hmate; apply Hiff; exact Hmate.
    + intros Hnone; apply Hiff; auto.
Qed.

Lemma checkmate_board_has_King : has_King false checkmate_board.
Proof.
  exists (mkPiece 2 King 2 3 false); simpl; repeat split; tauto.
Defined.

Lemma is_checkmate_spec_witness :
  exists check mate,
    is_check false checkmate_board = Ret check /\
    is_checkmate false checkmate_board = Ret mate /\
    (check = false -> mate = false) /\
    (check = true ->
     (mate = true <->
      forall p x y, In p (snd checkmate_board) -> side p = false ->
                    1 <= x <= fst checkmate_board ->
                    1 <= y <= fst checkmate_board ->
                    can_move_to p x y checkmate_board <> Ret true)).
Proof.
  exact (proj1 is_checkmate_spec false checkmate_board checkmate_board_has_King).
Defined.

(** C10.  On a board with a king of the side, [is_checkmate] and
    [is_stalemate] both return and are never both true: the first is true only
    if [is_check] is true, the second only if [is_check] is false. *)
Theorem checkmate_excludes_stalemate (side_ : bool) (B : Board) :
  has_King side_ B ->
  exists check mate stale,
    is_check side_ B = Ret check /\
    is_checkmate side_ B = Ret mate /\
    is_stalemate side_ B = Ret stale /\
    (mate = true -> check = true) /\
    (stale = true -> check = false) /\
    mate && stale = false.
Proof.
  intros Hking.
  destruct (is_checkmate_iff side_ B Hking) as [check [mate [Hc [Hm Hmate]]]].
  destruct (is_stalemate_iff side_ B Hking) as [check' [stale [Hc' [Hs Hstale]]]].
  rewrite Hc in Hc'; inversion Hc'; subst check'.
  exists check, mate, stale.
  split; [exact Hc |]; split; [exact Hm |]; split; [exact Hs |].
  split; [| split].
  - intros H; apply Hmate; exact H.
  - intros H; apply Hstale; exact H.
  - destruct mate; [| reflexivity]; destruct stale; [| reflexivity].
    destruct (proj1 Hmate eq_refl) as [-> _].
    destruct (proj1 Hstale eq_refl); discriminate.
Qed.

Lemma checkmate_excludes_stalemate_witness :
  exists check mate stale,
    is_check true checkmate_board = Ret check /\
    is_checkmate true checkmate_board = Ret mate /\
    is_stalemate true checkmate_board = Ret stale /\
    (mate = true -> check = true) /\
    (stale = true -> check = false) /\
    mate && stale = false.
Proof.
  apply (checkmate_excludes_stalemate true checkmate_board).
  exists (mkPiece 0 King 2 5 true); simpl; repeat split; tauto.
Defined.

(** ** The effect of a move *)

Lemma at_square_position (p q : Piece) :
  at_square (pos_x q) (pos_y q) p = true <-> position p = position q.
Proof.
  rewrite at_square_iff; unfold position; split;
    [intros [-> ->]; reflexivity | intros H; inversion H; auto].
Qed.

Lemma NoDup_position_inj (l : list Piece) (p q : Piece) :
  NoDup (map position l) -> In p l -> In q l -> position p = position q -> p = q.
Proof.
  induction l as [| a l IH]; intros Hnd Hp Hq Heq; [destruct Hp |].
  simpl in Hnd; inversion Hnd as [| ? ? Hnot Hnd']; subst.
  destruct Hp as [-> | Hp], Hq as [-> | Hq]; auto.
  - exfalso; apply Hnot; rewrite Heq; apply in_map; exact Hq.
  - exfalso; apply Hnot; rewrite <- Heq; apply in_map; exact Hp.
Qed.

Lemma NoDup_position_filter (f : Piece -> bool) (l : list Piece) :
  NoDup (map position l) -> NoDup (map position (filter f l)).
Proof.
  induction l as [| a l IH]; intros Hnd; simpl; [constructor |].
  simpl in Hnd; inversion Hnd as [| ? ? Hnot Hnd']; subst.
  destruct (f a); simpl; [constructor |]; auto.
  intros Hin; apply Hnot.
  apply in_map_iff in Hin; destruct Hin as [p [Hp Hin]].
  apply filter_In in Hin; rewrite <- Hp; apply in_map; tauto.
Qed.

Lemma filter_keeps_all (f : Piece -> bool) (l : list Piece) :
  (forall p, In p l -> f p = true) -> filter f l = l.
Proof.
  induction l as [| a l IH]; intros Hall; simpl; [reflexivity |].
  rewrite (Hall a) by (left; reflexivity).
  f_equal; apply IH; intros p Hp; apply Hall; right; exact Hp.
Qed.

(** On a list without overlap, removing a piece is emptying its square. *)
Lemma list_remove_no_overlap (q : Piece) (l : list Piece) :
  NoDup (map position l) -> In q l ->
  list_remove q l
  = Ret (filter (fun p => negb (at_square (pos_x q) (pos_y q) p)) l).
Proof.
  induction l as [| a l IH]; intros Hnd Hin; [destruct Hin |].
  simpl in Hnd; inversion Hnd as [| ? ? Hnot Hnd']; subst.
  simpl; destruct (same_object a q) eqn:Haq.
  - apply same_object_eq in Haq; subst a.
    replace (at_square (pos_x q) (pos_y q) q) with true
      by (symmetry; apply at_square_position; reflexivity).
    simpl; f_equal; symmetry; apply filter_keeps_all.
    intros p Hp; apply negb_true_iff, not_true_iff_false.
    rewrite at_square_position; intros Heq.
    apply Hnot; rewrite <- Heq; apply in_map; exact Hp.
  - apply same_object_neq in Haq.
    destruct Hin as [-> | Hin]; [congruence |].
    rewrite (IH Hnd' Hin); simpl.
    replace (at_square (pos_x q) (pos_y q) a) with false; [reflexivity |].
    symmetry; apply not_true_iff_false; rewrite at_square_position; intros Heq.
    apply Hnot; rewrite Heq; apply in_map; exact Hin.
Qed.

Lemma filter_andb (f g : Piece -> bool) (l : list Piece) :
  filter g (filter f l) = filter (fun p => f p && g p) l.
Proof.
  induction l as [| a l IH]; simpl; [reflexivity |].
  destruct (f a); simpl; [destruct (g a); rewrite IH |]; auto.
Qed.

Lemma filter_split_length (f : Piece -> bool) (l : list Piece) :
  (length (filter f l) + length (filter (fun p => negb (f p)) l) = length l)%nat.
Proof.
  induction l as [| a l IH]; simpl; [reflexivity |].
  destruct (f a); simpl; lia.
Qed.

(** On a list without overlap at most one piece stands on a given square. *)
Lemma occupants_length (x y : Z) (l : list Piece) :
  NoDup (map position l) ->
  length (filter (at_square x y) l)
  = if existsb (at_square x y) l then 1%nat else 0%nat.
Proof.
  induction l as [| a l IH]; intros Hnd; simpl; [reflexivity |].
  simpl in Hnd; inversion Hnd as [| ? ? Hnot Hnd']; subst.
  destruct (at_square x y a) eqn:Ha; simpl; [| auto].
  rewrite IH by assumption.
  destruct (existsb (at_square x y) l) eqn:Hex; [| reflexivity].
  exfalso; apply Hnot.
  apply existsb_exists in Hex; destruct Hex as [p [Hp Hpa]].
  apply at_square_iff in Ha; apply at_square_iff in Hpa.
  replace (position a) with (position p); [apply in_map; exact Hp |].
  unfold position; destruct Ha, Hpa; congruence.
Qed.

Lemma move_to_no_overlap (self : Piece) (pos_X pos_Y : Z) (B : Board) :
  no_overlap B -> In self (snd B) ->
  (pos_X, pos_Y) <> (pos_x self, pos_y self) ->
  move_to self pos_X pos_Y B
  = Ret (fst B, bystanders self pos_X pos_Y B ++ [moved_piece self pos_X pos_Y B]).
Proof.
  intros Hnd Hself Hne; rewrite move_to_unfold.
  assert (Hothers :
            filter (fun piece => negb (same_object piece self)) (snd B)
            = filter (fun p => negb (at_square (pos_x self) (pos_y self) p)) (snd B)).
  { apply filter_ext_in; intros p Hp; f_equal.
    destruct (same_object p self) eqn:Hps.
    - apply same_object_eq in Hps; subst p.
      symmetry; apply at_square_position; reflexivity.
    - symmetry; apply not_true_iff_false; rewrite at_square_position.
      intros Heq; apply same_object_neq in Hps; apply Hps.
      apply (NoDup_position_inj (snd B)); auto. }
  rewrite Hothers; unfold bystanders.
  destruct (is_piece_at pos_X pos_Y B) eqn:Hocc.
  - destruct (piece_at_present pos_X pos_Y B Hocc) as [q [Hq [Hin [Hx Hy]]]].
    rewrite Hq; simpl.
    rewrite list_remove_no_overlap.
    + rewrite filter_andb, Hx, Hy; reflexivity.
    + apply NoDup_position_filter; exact Hnd.
    + apply filter_In; split; [exact Hin |].
      apply negb_true_iff, not_true_iff_false; rewrite at_square_iff.
      intros [H1 H2]; apply Hne; congruence.
  - simpl; do 3 f_equal.
    apply filter_ext_in; intros p Hp.
    replace (at_square pos_X pos_Y p) with false;
      [rewrite andb_true_r; reflexivity |].
    symmetry; apply not_true_iff_false; rewrite at_square_iff.
    apply (proj1 (is_piece_at_false pos_X pos_Y B) Hocc); exact Hp.
Qed.

Lemma bystanders_length (self : Piece) (pos_X pos_Y : Z) (B : Board) :
  no_overlap B -> In self (snd B) ->
  (pos_X, pos_Y) <> (pos_x self, pos_y self) ->
  (length (bystanders self pos_X pos_Y B)
   + (if is_piece_at pos_X pos_Y B then 2 else 1) = length (snd B))%nat.
Proof.
  intros Hnd Hself Hne; unfold bystanders.
  rewrite <- filter_andb.
  pose proof (filter_split_length (at_square (pos_x self) (pos_y self)) (snd B)) as H1.
  pose proof (filter_split_length (at_square pos_X pos_Y)
                (filter (fun p => negb (at_square (pos_x self) (pos_y self) p))
                        (snd B))) as H2.
  rewrite (occupants_length _ _ _ Hnd) in H1.
  rewrite occupants_length in H2 by (apply NoDup_position_filter; exact Hnd).
  replace (existsb (at_square (pos_x self) (pos_y self)) (snd B)) with true in H1.
  2:{ symmetry; apply existsb_exists; exists self; split; [exact Hself |].
      apply at_square_position; reflexivity. }
  replace (existsb (at_square pos_X pos_Y)
             (filter (fun p => negb (at_square (pos_x self) (pos_y self) p)) (snd B)))
    with (is_piece_at pos_X pos_Y B) in H2.
  { destruct (is_piece_at pos_X pos_Y B); lia. }
  unfold is_piece_at; fold (at_square pos_X pos_Y).
  apply eq_true_iff_eq; rewrite !existsb_exists.
  split; intros [p [Hp Hpa]]; exists p; split; auto.
  - apply filter_In; split; [exact Hp |].
    apply negb_true_iff, not_true_iff_false; rewrite at_square_iff.
    apply at_square_iff in Hpa; intros [H3 H4]; apply Hne; destruct Hpa; congruence.
  - apply filter_In in Hp; tauto.
Qed.

(** C6.  On a board where no two pieces share a square, for a piece [P] of the
    board and any target other than [P]'s own square, legal or not,
    [move_to] returns a board of the same size whose pieces are those of [B]
    that stand neither on [P]'s square nor on the target, unchanged and in
    their order, followed by one new piece of [P]'s kind and side on the
    target; the number of pieces drops by one when the target was occupied and
    is unchanged otherwise.  Every target [can_move_to] accepts is such a
    target ([legal_target_differs]). *)
Theorem move_to_frame (P : Piece) (x y : Z) (B : Board) :
  no_overlap B ->
  In P (snd B) ->
  (x, y) <> (pos_x P, pos_y P) ->
  exists B' new_piece,
    move_to P x y B = Ret B' /\
    fst B' = fst B /\
    snd B' = filter (fun p => negb (at_square (pos_x P) (pos_y P) p)
                              && negb (at_square x y p)) (snd B)
             ++ [new_piece] /\
    kind new_piece = kind P /\
    side new_piece = side P /\
    position new_piece = (x, y) /\
    ~ In (oid new_piece) (map oid (snd B)) /\
    length (snd B') = if is_piece_at x y B
                      then (length (snd B) - 1)%nat
                      else length (snd B).
Proof.
  intros Hnd HP Hne.
  exists (fst B, bystanders P x y B ++ [moved_piece P x y B]), (moved_piece P x y B).
  split; [apply move_to_no_overlap; assumption |].
  repeat (split; [reflexivity |]).
  split.
  - intros Hin; apply (moved_piece_fresh P x y B); right; exact Hin.
  - cbn [snd]; rewrite length_app; cbn [length].
    pose proof (bystanders_length P x y B Hnd HP Hne) as Hlen.
    destruct (is_piece_at x y B); lia.
Qed.

Lemma move_to_frame_witness :
  exists B' new_piece,
    move_to (mkPiece 1 Bishop 4 4 true) 3 3 B1 = Ret B' /\
    fst B' = 5 /\
    snd B' = [mkPiece 0 Bishop 2 5 true; mkPiece 8 Bishop 5 3 false;
              mkPiece 2 Bishop 3 1 true; mkPiece 5 King 3 5 true;
              mkPiece 10 King 2 3 false] ++ [new_piece] /\
    kind new_piece = Bishop /\
    side new_piece = true /\
    position new_piece = (3, 3) /\
    ~ In (oid new_piece) [0%nat; 7%nat; 1%nat; 8%nat; 2%nat; 5%nat; 10%nat] /\
    length (snd B') = 6%nat.
Proof.
  apply (move_to_frame (mkPiece 1 Bishop 4 4 true) 3 3 B1).
  - unfold no_overlap; simpl.
    repeat constructor; simpl; intuition discriminate.
  - simpl; tauto.
  - discriminate.
Defined.

(** ** Characters *)

Lemma ord_ascii_of_N (n : Z) : 0 <= n < 256 -> ord (ascii_of_N (Z.to_N n)) = n.
Proof.
  intros Hn; unfold ord; rewrite N_ascii_embedding; lia.
Qed.

Lemma ord_inj (c d : ascii) : ord c = ord d -> c = d.
Proof.
  unfold ord; intros H.
  rewrite <- (ascii_N_embedding c), <- (ascii_N_embedding d); f_equal; lia.
Qed.

Lemma eqb_ord (c d : ascii) : Ascii.eqb c d = (ord c =? ord d).
Proof.
  destruct (Ascii.eqb_spec c d) as [-> | Hne]; symmetry.
  - apply Z.eqb_refl.
  - apply Z.eqb_neq; intros H; apply Hne, ord_inj, H.
Qed.

Lemma digit_char_ord (d : Z) : 0 <= d < 10 -> ord (digit_char d) = 48 + d.
Proof. intros Hd; unfold digit_char; apply ord_ascii_of_N; lia. Qed.

Lemma digit_char_is_digit (d : Z) : 0 <= d < 10 -> is_digit (digit_char d) = true.
Proof.
  intros Hd; unfold is_digit; rewrite digit_char_ord by exact Hd.
  apply andb_true_iff; rewrite !Z.leb_le; lia.
Qed.

Lemma digit_char_value (d : Z) : 0 <= d < 10 -> digit_value (digit_char d) = d.
Proof. intros Hd; unfold digit_value; rewrite digit_char_ord by exact Hd; lia. Qed.

Lemma is_digit_ord (c : ascii) : is_digit c = true <-> 48 <= ord c <= 57.
Proof. unfold is_digit; rewrite andb_true_iff, !Z.leb_le; tauto. Qed.

Lemma int_space_ord (c : ascii) :
  int_space c = true <->
  9 <= ord c <= 13 \/ ord c = 32 \/ ord c = 133 \/ ord c = 160.
Proof.
  unfold int_space; rewrite !orb_true_iff, andb_true_iff, !Z.leb_le, !Z.eqb_eq.
  tauto.
Qed.

Lemma isspace_ord (c : ascii) :
  isspace c = true <->
  9 <= ord c <= 13 \/ 28 <= ord c <= 32 \/ ord c = 133 \/ ord c = 160.
Proof.
  unfold isspace; rewrite !orb_true_iff, !andb_true_iff, !Z.leb_le, !Z.eqb_eq.
  tauto.
Qed.

Lemma digit_not_int_space (c : ascii) : is_digit c = true -> int_space c = false.
Proof.
  intros H; apply is_digit_ord in H; apply not_true_iff_false.
  rewrite int_space_ord; lia.
Qed.

(** A digit is none of the marks "-", "+", "_" and ",". *)
Lemma digit_not_mark (c m : ascii) :
  is_digit c = true -> ord m < 48 \/ 57 < ord m -> Ascii.eqb c m = false.
Proof.
  intros H Hm; apply is_digit_ord in H.
  rewrite eqb_ord; apply Z.eqb_neq; lia.
Qed.

(** ** Integers and their decimal text *)

Lemma scan_digits_digit (acc : Z) (n : nat) (c : ascii) (s : string) :
  is_digit c = true ->
  scan_digits acc n (String c s) = scan_digits (10 * acc + digit_value c) (S n) s.
Proof. intros H; simpl; rewrite H; reflexivity. Qed.

(** With enough fuel [digits_of] writes at least one digit, and reading what
    it wrote from the left gives the number back. *)
Lemma digits_of_scan (fuel : nat) :
  forall (n : Z) (acc : string),
    0 <= n < 2 ^ Z.of_nat (S fuel) ->
    exists (len : nat) (c : ascii) (rest : string),
      (1 <= len <= S fuel)%nat /\
      digits_of (S fuel) n acc = String c rest /\
      is_digit c = true /\
      String.length (digits_of (S fuel) n acc) = (len + String.length acc)%nat /\
      forall a k,
        scan_digits a k (digits_of (S fuel) n acc)
        = scan_digits (a * 10 ^ Z.of_nat len + n) (k + len) acc.
Proof.
  induction fuel as [| fuel IH]; intros n acc Hn.
  - assert (Hsmall : n < 10) by (change (2 ^ Z.of_nat 1) with 2 in Hn; lia).
    assert (Hmod : n mod 10 = n) by (apply Z.mod_small; lia).
    cbn [digits_of]; rewrite Hmod.
    replace (n <? 10) with true by (symmetry; apply Z.ltb_lt; exact Hsmall).
    exists 1%nat, (digit_char n), acc.
    split; [lia |]; split; [reflexivity |].
    split; [apply digit_char_is_digit; lia |].
    split; [reflexivity |].
    intros a k; rewrite scan_digits_digit by (apply digit_char_is_digit; lia).
    rewrite digit_char_value by lia.
    f_equal; [change (10 ^ Z.of_nat 1) with 10; lia | lia].
  - remember (S fuel) as fuel' eqn:Hfuel.
    cbn [digits_of]; destruct (Z.ltb_spec n 10) as [Hsmall | Hbig].
    + assert (Hmod : n mod 10 = n) by (apply Z.mod_small; lia).
      rewrite Hmod.
      exists 1%nat, (digit_char n), acc.
      split; [lia |]; split; [reflexivity |].
      split; [apply digit_char_is_digit; lia |].
      split; [reflexivity |].
      intros a k; rewrite scan_digits_digit by (apply digit_char_is_digit; lia).
      rewrite digit_char_value by lia.
      f_equal; [change (10 ^ Z.of_nat 1) with 10; lia | lia].
    + pose proof (Z.mod_pos_bound n 10 ltac:(lia)) as Hmod.
      pose proof (Z.div_mod n 10 ltac:(lia)) as Hdm.
      assert (Hdiv : 0 <= n / 10 < 2 ^ Z.of_nat fuel').
      { split; [apply Z.div_pos; lia |].
        apply Z.div_lt_upper_bound; [lia |].
        rewrite Nat2Z.inj_succ, Z.pow_succ_r in Hn by lia.
        assert (0 < 2 ^ Z.of_nat fuel') by (apply Z.pow_pos_nonneg; lia).
        lia. }
      subst fuel'.
      destruct (IH (n / 10) (String (digit_char (n mod 10)) acc) Hdiv)
        as [len [c [rest [Hlen [Hhead [Hc [Hlength Hscan]]]]]]].
      exists (S len), c, rest.
      split; [lia |]; split; [exact Hhead |]; split; [exact Hc |].
      split; [rewrite Hlength; simpl; lia |].
      intros a k; rewrite Hscan.
      rewrite scan_digits_digit by (apply digit_char_is_digit; lia).
      rewrite digit_char_value by lia.
      f_equal; [| lia].
      rewrite Nat2Z.inj_succ, Z.pow_succ_r by lia; lia.
Qed.

Lemma log2_fuel (n : Z) : 0 <= n -> n < 2 ^ Z.of_nat (S (Z.to_nat (Z.log2 n))).
Proof.
  intros Hn; destruct (Z.eq_dec n 0) as [-> | Hpos].
  - apply Z.pow_pos_nonneg; lia.
  - pose proof (Z.log2_nonneg n).
    rewrite Nat2Z.inj_succ, Z2Nat.id by lia.
    apply Z.log2_spec; lia.
Qed.

Lemma skip_spaces_head (c : ascii) (s : string) :
  int_space c = false -> skip_spaces (String c s) = String c s.
Proof. intros H; simpl; rewrite H; reflexivity. Qed.

Lemma split_sign_minus (s : string) : split_sign (String "-" s) = (true, s).
Proof. reflexivity. Qed.

Lemma split_sign_digit (c : ascii) (s : string) :
  is_digit c = true -> split_sign (String c s) = (false, String c s).
Proof.
  intros Hc; unfold split_sign.
  rewrite (digit_not_mark c "-"), (digit_not_mark c "+") by (auto; cbn; lia).
  reflexivity.
Qed.

(** [int(str(n)) == n] whenever [str(n)] is within the limit on digits. *)
Lemma py_int_py_str (n : Z) (s : string) :
  py_str n = Ret s -> py_int s = Ret n.
Proof.
  unfold py_str.
  destruct (digits_of_scan (Z.to_nat (Z.log2 (Z.abs n))) (Z.abs n) EmptyString)
    as [len [c [rest [Hlen [Hhead [Hc [Hlength Hscan]]]]]]].
  { split; [lia | apply log2_fuel; lia]. }
  set (digits := digits_of (S (Z.to_nat (Z.log2 (Z.abs n)))) (Z.abs n) EmptyString)
    in *.
  destruct (Nat.ltb_spec int_max_str_digits (String.length digits))
    as [Hover | Hfits]; [discriminate |].
  intros Hs; inversion Hs as [Hs']; clear Hs Hs'.
  assert (Hread : scan_digits 0 0 digits = Some (Z.abs n, len, EmptyString)).
  { rewrite Hscan; simpl; f_equal. }
  assert (Hcap : Nat.ltb int_max_str_digits len = false).
  { apply Nat.ltb_ge; rewrite Hlength in Hfits; simpl in Hfits; lia. }
  assert (Hlen0 : Nat.eqb len 0 = false) by (apply Nat.eqb_neq; lia).
  unfold py_int; destruct (Z.ltb_spec n 0) as [Hneg | Hpos].
  - rewrite skip_spaces_head
      by (apply not_true_iff_false; rewrite int_space_ord; cbn; lia).
    rewrite split_sign_minus, Hread, Hlen0, Hcap; simpl.
    f_equal; lia.
  - rewrite Hhead, skip_spaces_head by (apply digit_not_int_space; exact Hc).
    rewrite split_sign_digit by exact Hc.
    rewrite <- Hhead, Hread, Hlen0, Hcap; simpl.
    f_equal; lia.
Qed.

(** ** What [int] accepts *)

Lemma skip_spaces_app (ws s : string) :
  string_forall int_space ws = true ->
  skip_spaces (ws ++ s) = skip_spaces s.
Proof.
  induction ws as [| c ws IH]; simpl; [reflexivity |].
  rewrite andb_true_iff; intros [Hc Hws]; rewrite Hc; auto.
Qed.

Lemma skip_spaces_all (ws : string) :
  string_forall int_space ws = true <-> skip_spaces ws = EmptyString.
Proof.
  induction ws as [| c ws IH]; simpl; [tauto |].
  destruct (int_space c); simpl; [exact IH | split; discriminate].
Qed.

Lemma skip_spaces_split (s : string) :
  exists ws, s = (ws ++ skip_spaces s)%string /\ string_forall int_space ws = true.
Proof.
  induction s as [| c s [ws [Hs Hws]]]; simpl.
  - exists EmptyString; auto.
  - destruct (int_space c) eqn:Hc.
    + exists (String c ws); simpl; rewrite Hc, Hws, <- Hs; auto.
    + exists EmptyString; auto.
Qed.

Lemma scan_digits_underscore (acc : Z) (n : nat) (c : ascii) (s : string) :
  is_digit c = true ->
  scan_digits acc (S n) (String "_" (String c s))
  = scan_digits acc (S n) (String c s).
Proof. intros H; simpl; rewrite H; reflexivity. Qed.

(** The scanner reads a well-formed tail to its end, when what follows is
    neither a digit nor an underscore. *)
Lemma scan_digits_tail (t : string) (ds : list Z) (rest : string) :
  digit_tail t ds ->
  (forall c r, rest = String c r -> is_digit c = false /\ Ascii.eqb c "_" = false) ->
  forall acc n,
    scan_digits acc (S n) (t ++ rest)
    = Some (fold_left (fun a d => 10 * a + d) ds acc, (S n + length ds)%nat, rest).
Proof.
  intros Htail Hrest; induction Htail as [| c s ds Hc _ IH | c s ds Hc _ IH];
    intros acc n.
  - simpl; rewrite Nat.add_0_r.
    destruct rest as [| c r]; [reflexivity |].
    destruct (Hrest c r eq_refl) as [Hd Hu].
    cbn [scan_digits]; rewrite Hd, Hu; reflexivity.
  - cbn [String.append]; rewrite scan_digits_digit by exact Hc.
    rewrite IH; simpl; do 3 f_equal; lia.
  - cbn [String.append]; rewrite scan_digits_underscore by exact Hc.
    rewrite scan_digits_digit by exact Hc.
    rewrite IH; simpl; do 3 f_equal; lia.
Qed.

(** Whatever the scanner read was a well-formed tail. *)
Lemma scan_digits_sound (m : nat) :
  forall (s : string) (acc : Z) (n : nat) (v : Z) (n' : nat) (rest : string),
    (String.length s <= m)%nat ->
    scan_digits acc (S n) s = Some (v, n', rest) ->
    exists t ds,
      s = (t ++ rest)%string /\ digit_tail t ds /\
      v = fold_left (fun a d => 10 * a + d) ds acc /\
      n' = (S n + length ds)%nat.
Proof.
  induction m as [| m IH]; intros s acc n v n' rest Hlen Hscan.
  - destruct s; [| simpl in Hlen; lia].
    simpl in Hscan; inversion Hscan; subst.
    exists EmptyString, []; simpl; repeat split; [constructor | lia].
  - destruct s as [| c s]; simpl in Hscan.
    + inversion Hscan; subst.
      exists EmptyString, []; simpl; repeat split; [constructor | lia].
    + simpl in Hlen; destruct (is_digit c) eqn:Hc.
      * apply IH in Hscan; [| lia].
        destruct Hscan as [t [ds [Hs [Ht [Hv Hn]]]]].
        exists (String c t), (digit_value c :: ds); simpl.
        rewrite Hs; repeat split; [constructor | | lia]; auto.
      * destruct (Ascii.eqb_spec c "_") as [-> | Hu].
        -- destruct s as [| c' s]; [discriminate |].
           destruct (is_digit c') eqn:Hc'; [| discriminate].
           rewrite scan_digits_digit in Hscan by exact Hc'.
           simpl in Hlen; apply IH in Hscan; [| lia].
           destruct Hscan as [t [ds [Hs [Ht [Hv Hn]]]]].
           exists (String "_" (String c' t)), (digit_value c' :: ds); simpl.
           rewrite Hs; repeat split; [constructor | | lia]; auto.
        -- inversion Hscan; subst.
           exists EmptyString, []; simpl; repeat split; [constructor | lia].
Qed.

(** [int] raises one of its two [ValueError]s or returns. *)
Lemma py_int_outcome (s : string) :
  py_int s = Raise (ValueError invalid_literal) \/
  py_int s = Raise (ValueError exceeds_digit_limit) \/
  exists v, py_int s = Ret v.
Proof.
  unfold py_int.
  destruct (split_sign (skip_spaces s)) as [negative s2].
  destruct (scan_digits 0 0 s2) as [[[v n] rest] |]; [| auto].
  destruct (Nat.eqb n 0); [auto |].
  destruct (Nat.ltb _ _); [auto |].
  destruct (negb _); eauto.
Qed.

Lemma space_not_digit (c : ascii) :
  int_space c = true -> is_digit c = false /\ Ascii.eqb c "_" = false.
Proof.
  rewrite int_space_ord; intros H; split.
  - apply not_true_iff_false; rewrite is_digit_ord; lia.
  - rewrite eqb_ord; apply Z.eqb_neq; change (ord "_") with 95; lia.
Qed.

(** The digits of a literal, from its first digit on. *)
Lemma scan_literal_complete (c : ascii) (body ws2 : string) (ds : list Z) :
  is_digit c = true -> digit_tail body ds ->
  string_forall int_space ws2 = true ->
  scan_digits 0 0 (String c body ++ ws2)
  = Some (decimal_value (digit_value c :: ds), S (length ds), ws2).
Proof.
  intros Hc Htail Hws; cbn [String.append].
  rewrite scan_digits_digit by exact Hc.
  rewrite (scan_digits_tail body ds ws2 Htail); [reflexivity |].
  intros c' r ->; simpl in Hws; apply andb_true_iff in Hws.
  apply space_not_digit; tauto.
Qed.

Lemma scan_literal_sound (s : string) (v : Z) (n : nat) (rest : string) :
  scan_digits 0 0 s = Some (v, n, rest) -> n <> 0%nat ->
  exists c body ds,
    s = (String c body ++ rest)%string /\ is_digit c = true /\
    digit_tail body ds /\
    v = decimal_value (digit_value c :: ds) /\ n = S (length ds).
Proof.
  intros Hscan Hn; destruct s as [| c s].
  - simpl in Hscan; inversion Hscan; subst; contradiction.
  - destruct (is_digit c) eqn:Hc.
    + rewrite scan_digits_digit in Hscan by exact Hc.
      apply (scan_digits_sound (String.length s)) in Hscan; [| lia].
      destruct Hscan as [t [ds [Hs [Ht [Hv Hn']]]]].
      exists c, t, ds; subst s; repeat split; auto.
    + simpl in Hscan; rewrite Hc in Hscan.
      destruct (Ascii.eqb c "_"); [discriminate |].
      inversion Hscan; subst; contradiction.
Qed.

(** [int] returns [v] exactly on the literals of value [v]. *)
Lemma py_int_iff (s : string) (v : Z) : py_int s = Ret v <-> int_literal s v.
Proof.
  split.
  - unfold py_int; intros H.
    destruct (skip_spaces_split s) as [ws1 [Hs Hws1]].
    destruct (split_sign (skip_spaces s)) as [negative s2] eqn:Hsign.
    destruct (scan_digits 0 0 s2) as [[[v' n] rest] |] eqn:Hscan;
      [| discriminate].
    destruct (Nat.eqb_spec n 0) as [Hn | Hn]; [discriminate |].
    destruct (Nat.ltb_spec int_max_str_digits n) as [Hcap | Hcap];
      [discriminate |].
    destruct (String.eqb_spec (skip_spaces rest) EmptyString) as [Hrest | Hrest];
      [| discriminate].
    simpl in H; inversion H as [Hv]; clear H.
    destruct (scan_literal_sound s2 v' n rest Hscan Hn)
      as [c [body [ds [Hs2 [Hc [Htail [Hv' Hn']]]]]]].
    apply skip_spaces_all in Hrest.
    assert (Hshape : exists sign,
               skip_spaces s = (sign ++ s2)%string /\
               (sign = EmptyString \/ sign = "+"%string \/ sign = "-"%string) /\
               negative = String.eqb sign "-").
    { unfold split_sign in Hsign.
      destruct (skip_spaces s) as [| c0 s0].
      - inversion Hsign; subst; exists EmptyString; auto.
      - destruct (Ascii.eqb_spec c0 "-") as [-> | Hminus].
        + inversion Hsign; subst; exists "-"%string; auto.
        + destruct (Ascii.eqb_spec c0 "+") as [-> | Hplus];
            inversion Hsign; subst;
            [exists "+"%string | exists EmptyString]; auto. }
    destruct Hshape as [sign [Hs1 [Hsg Hneg]]].
    exists ws1, sign, c, body, rest, ds.
    rewrite Hs at 1; rewrite Hs1, Hs2.
    repeat split; auto.
    + simpl; lia.
    + rewrite <- Hneg, <- Hv'; reflexivity.
  - intros [ws1 [sign [c [body [ws2 [ds [Hs [Hws1 [Hws2 [Hsg [Hc [Ht [Hcap Hv]]]]]]]]]]]]].
    subst s; unfold py_int; rewrite skip_spaces_app by exact Hws1.
    assert (Hsign : split_sign (skip_spaces (sign ++ String c body ++ ws2))
                    = (String.eqb sign "-", (String c body ++ ws2)%string)).
    { destruct Hsg as [-> | [-> | ->]]; cbn [String.append].
      - rewrite skip_spaces_head by (apply digit_not_int_space; exact Hc).
        apply split_sign_digit; exact Hc.
      - reflexivity.
      - reflexivity. }
    rewrite Hsign, (scan_literal_complete c body ws2 ds Hc Ht Hws2).
    apply skip_spaces_all in Hws2; rewrite Hws2.
    replace (Nat.ltb int_max_str_digits (S (length ds))) with false
      by (symmetry; apply Nat.ltb_ge; simpl in Hcap; lia).
    simpl; rewrite Hv; reflexivity.
Qed.

(** C8 (as the code has it).  On the strings of characters of code 0..255,
    [location2index] raises [IndexError] on the empty string and one of the
    [ValueError]s of [int] when the characters after the first are not an
    integer literal; it does not look at what the first character is: behind
    any first character [c] of these, a literal of value [y] gives the pair
    [(ord(lower(c)) - ord("a") + 1, y)]. *)
Theorem location2index_spec :
  location2index EmptyString = Raise IndexError /\
  (forall c rest,
      (forall y, ~ int_literal rest y) ->
      location2index (String c rest) = Raise (ValueError invalid_literal) \/
      location2index (String c rest) = Raise (ValueError exceeds_digit_limit)) /\
  (forall c rest y,
      int_literal rest y ->
      location2index (String c rest) = Ret (ord (lower c) - ord "a" + 1, y)).
Proof.
  split; [reflexivity |]; split.
  - intros c rest Hnone; unfold location2index.
    destruct (py_int_outcome rest) as [Hraise | [Hraise | [y Hy]]].
    + rewrite Hraise; left; reflexivity.
    + rewrite Hraise; right; reflexivity.
    + apply py_int_iff in Hy; exfalso; exact (Hnone y Hy).
  - intros c rest y Hy; unfold location2index.
    apply py_int_iff in Hy; rewrite Hy; reflexivity.
Qed.

Lemma location2index_spec_witness :
  location2index "12" = Ret (ord (lower "1") - ord "a" + 1, 2).
Proof.
  apply (proj2 (proj2 location2index_spec)).
  exists EmptyString, EmptyString, "2"%char, EmptyString, EmptyString, [].
  repeat split; try reflexivity; [left; reflexivity | constructor |].
  unfold int_max_str_digits; simpl; lia.
Defined.

(** C8 (the claim as written fails).  A digit in front is decoded, to a file
    below 1, and a signed remainder is decoded, to a negative rank. *)
Lemma location2index_no_format_check :
  location2index "12" = Ret (-47, 2) /\
  location2index "a-5" = Ret (1, -5).
Proof. split; vm_compute; reflexivity. Qed.

(** ** Texts *)




Lemma string_forall_impl (P Q : ascii -> bool) (s : string) :
  (forall c, P c = true -> Q c = true) ->
  string_forall P s = true -> string_forall Q s = true.
Proof.
  intros HPQ; induction s as [| x s IH]; simpl; [reflexivity |].
  rewrite !andb_true_iff; intros [Hx Hs]; auto.
Qed.

Lemma plain_ord (c : ascii) : 33 <= ord c <= 126 -> ord c <> 44 -> plain c = true.
Proof.
  intros Hc Hcomma; unfold plain; apply andb_true_iff; split; apply negb_true_iff.
  - apply not_true_iff_false; rewrite isspace_ord; lia.
  - rewrite eqb_ord; apply Z.eqb_neq; exact Hcomma.
Qed.


Lemma digit_plain (c : ascii) : is_digit c = true -> plain c = true.
Proof. intros H; apply is_digit_ord in H; apply plain_ord; lia. Qed.

(** *** [split] *)






(** *** [strip] *)










(** *** Lines *)






(** *** The text of an integer *)

Lemma digits_of_all_digits (fuel : nat) :
  forall (n : Z) (acc : string),
    string_forall is_digit acc = true ->
    string_forall is_digit (digits_of fuel n acc) = true.
Proof.
  induction fuel as [| fuel IH]; intros n acc Hacc; [exact Hacc |].
  pose proof (Z.mod_pos_bound n 10 ltac:(lia)) as Hmod.
  assert (Hdigit : string_forall is_digit (String (digit_char (n mod 10)) acc) = true).
  { simpl; rewrite digit_char_is_digit by lia; exact Hacc. }
  cbn [digits_of]; destruct (n <? 10); [exact Hdigit | apply IH; exact Hdigit].
Qed.

(** A number has at least as many digits as [digits_of] writes for it. *)
Lemma digits_of_length (fuel : nat) :
  forall (n : Z) (acc : string),
    0 <= n ->
    10 ^ (Z.of_nat (String.length (digits_of fuel n acc))
          - Z.of_nat (String.length acc) - 1)
    <= Z.max n 1.
Proof.
  induction fuel as [| fuel IH]; intros n acc Hn.
  - simpl digits_of.
    replace (Z.of_nat (String.length acc) - Z.of_nat (String.length acc) - 1)
      with (-1) by lia.
    change (10 ^ (-1)) with 0; lia.
  - cbn [digits_of]; destruct (Z.ltb_spec n 10) as [Hsmall | Hbig].
    + cbn [String.length].
      replace (Z.of_nat (S (String.length acc)) - Z.of_nat (String.length acc) - 1)
        with 0 by lia.
      change (10 ^ 0) with 1; lia.
    + pose proof (Z.div_mod n 10 ltac:(lia)) as Hdm.
      pose proof (Z.mod_pos_bound n 10 ltac:(lia)) as Hmod.
      assert (Hdiv : 1 <= n / 10) by (apply Z.div_le_lower_bound; lia).
      specialize (IH (n / 10) (String (digit_char (n mod 10)) acc) ltac:(lia)).
      cbn [String.length] in IH.
      set (L := Z.of_nat (String.length
                            (digits_of fuel (n / 10)
                               (String (digit_char (n mod 10)) acc)))) in *.
      set (A := Z.of_nat (String.length acc)) in *.
      replace (L - Z.of_nat (S (String.length acc)) - 1) with (L - A - 2) in IH
        by (unfold A; lia).
      destruct (Z.lt_trichotomy (L - A - 1) 0) as [Hlt | [Heq | Hgt]].
      * rewrite Z.pow_neg_r by exact Hlt; lia.
      * rewrite Heq; change (10 ^ 0) with 1; lia.
      * replace (L - A - 1) with (Z.succ (L - A - 2)) by lia.
        rewrite Z.pow_succ_r by lia; lia.
Qed.

(** [str(n)] returns for every [n] of at most 4300 digits, and what it
    returns is made of digits behind an optional minus sign. *)
Lemma py_str_text (n : Z) :
  Z.abs n < 10 ^ 4300 ->
  exists s,
    py_str n = Ret s /\ s <> EmptyString /\ string_forall plain s = true.
Proof.
  intros Hn; unfold py_str.
  set (digits := digits_of (S (Z.to_nat (Z.log2 (Z.abs n)))) (Z.abs n) EmptyString).
  assert (Hall : string_forall is_digit digits = true)
    by (apply digits_of_all_digits; reflexivity).
  assert (Hplain : string_forall plain digits = true).
  { apply (string_forall_impl is_digit); [apply digit_plain | exact Hall]. }
  assert (Hlen : (String.length digits <= int_max_str_digits)%nat).
  { pose proof (digits_of_length (S (Z.to_nat (Z.log2 (Z.abs n)))) (Z.abs n)
                  EmptyString ltac:(lia)) as Hbound.
    fold digits in Hbound; cbn [String.length] in Hbound.
    unfold int_max_str_digits.
    destruct (Nat.le_gt_cases (String.length digits) 4300) as [Hle | Hgt];
      [exact Hle | exfalso].
    assert (10 ^ 4300 <= 10 ^ (Z.of_nat (String.length digits) - Z.of_nat 0 - 1)).
    { apply Z.pow_le_mono_r; lia. }
    lia. }
  replace (Nat.ltb int_max_str_digits (String.length digits)) with false
    by (symmetry; apply Nat.ltb_ge; exact Hlen).
  eexists; split; [reflexivity |].
  destruct (n <? 0); [split; [discriminate |] |].
  - simpl; rewrite Hplain; reflexivity.
  - split; [| exact Hplain].
    destruct (digits_of_scan (Z.to_nat (Z.log2 (Z.abs n))) (Z.abs n) EmptyString)
      as [len [c [rest [_ [Hhead _]]]]].
    { split; [lia | apply log2_fuel; lia]. }
    fold digits in Hhead; rewrite Hhead; discriminate.
Qed.

(** ** Coordinates *)

(** The column letter of a file 1..26 is a lower-case letter, and is read
    back as the file. *)
Lemma chr_latin (n : Z) :
  0 <= n < 256 -> chr n = Ret (ascii_of_N (Z.to_N n)).
Proof.
  intros Hn; unfold chr.
  replace ((n <? - 2147483648) || (2147483648 <=? n)) with false
    by (symmetry; apply orb_false_iff; rewrite Z.ltb_ge, Z.leb_gt; lia).
  replace ((n <? 0) || (1114112 <=? n)) with false
    by (symmetry; apply orb_false_iff; rewrite Z.ltb_ge, Z.leb_gt; lia).
  replace (n <? 256) with true by (symmetry; apply Z.ltb_lt; lia).
  reflexivity.
Qed.

Lemma column_letter (x : Z) :
  1 <= x <= 26 ->
  exists column,
    chr (x + ord "a" - 1) = Ret column /\
    ord column = x + 96 /\
    ord (lower column) - ord "a" + 1 = x.
Proof.
  intros Hx; change (ord "a") with 97.
  exists (ascii_of_N (Z.to_N (x + 97 - 1))).
  assert (Hord : ord (ascii_of_N (Z.to_N (x + 97 - 1))) = x + 96).
  { rewrite ord_ascii_of_N; lia. }
  split; [| split; [exact Hord |]].
  - apply chr_latin; lia.
  - unfold lower; rewrite Hord.
    replace ((65 <=? x + 96) && (x + 96 <=? 90)
             || (192 <=? x + 96) && (x + 96 <=? 222) && negb (x + 96 =? 215))
      with false; [lia |].
    symmetry; apply orb_false_iff; split.
    + apply andb_false_iff; right; apply Z.leb_gt; lia.
    + apply andb_false_iff; left; apply andb_false_iff; left; apply Z.leb_gt; lia.
Qed.

(** Decoding inverts encoding on the files a..z, for every rank whose text
    is within the limit on digits. *)
Lemma location2index_index2location (x y : Z) (loc : string) :
  1 <= x <= 26 ->
  index2location x y = Ret loc ->
  location2index loc = Ret (x, y).
Proof.
  intros Hx; unfold index2location.
  destruct (column_letter x Hx) as [column [Hchr [_ Hback]]].
  rewrite Hchr; simpl.
  destruct (py_str y) as [row | e | ] eqn:Hrow; simpl; try discriminate.
  intros Hloc; inversion Hloc; subst loc; clear Hloc.
  unfold location2index; rewrite (py_int_py_str y row Hrow), Hback; reflexivity.
Qed.

(** Encoding returns on the files a..z, for every rank of at most 4300
    digits, and gives a text without white space or comma. *)
Lemma index2location_returns (x y : Z) :
  1 <= x <= 26 -> Z.abs y < 10 ^ 4300 ->
  exists loc, index2location x y = Ret loc /\ string_forall plain loc = true.
Proof.
  intros Hx Hy; unfold index2location.
  destruct (column_letter x Hx) as [column [Hchr [Hord _]]].
  destruct (py_str_text y Hy) as [row [Hrow [_ Hplain]]].
  rewrite Hchr, Hrow; simpl; eexists; split; [reflexivity |].
  simpl; rewrite Hplain, plain_ord by lia; reflexivity.
Qed.

(** C9.  For a file in 1..26 and a rank in 1..99, [index2location] returns a
    location and [location2index] reads it back as exactly that pair. *)
Theorem coordinate_roundtrip (file rank : Z) :
  1 <= file <= 26 ->
  1 <= rank <= 99 ->
  exists loc,
    index2location file rank = Ret loc /\
    location2index loc = Ret (file, rank).
Proof.
  intros Hfile Hrank.
  destruct (index2location_returns file rank Hfile) as [loc [Hloc _]].
  { apply Z.lt_le_trans with (10 ^ 2); [change (10 ^ 2) with 100; lia |].
    apply Z.pow_le_mono_r; lia. }
  exists loc; split; [exact Hloc |].
  apply (location2index_index2location file rank loc Hfile Hloc).
Qed.

Lemma coordinate_roundtrip_witness :
  exists loc,
    index2location 5 2 = Ret loc /\ location2index loc = Ret (5, 2).
Proof.
  apply (coordinate_roundtrip 5 2); lia.
Defined.

(** ** Boards *)












(** * Further properties of the rules engine *)

(** ** Looking up a square *)

Lemma find_first_split {A : Type} (f : A -> bool) (l : list A) (a : A) :
  find f l = Some a ->
  exists before after,
    l = before ++ a :: after /\ f a = true /\
    forall p, In p before -> f p = false.
Proof.
  induction l as [| p l IH]; [discriminate |].
  simpl; destruct (f p) eqn:Hp.
  - intros Ha; inversion Ha; subst p.
    exists [], l; repeat split; auto.
    intros q [].
  - intros Hfind; destruct (IH Hfind) as [before [after [Hl [Ha Hnone]]]].
    exists (p :: before), after; subst l; repeat split; auto.
    intros q [<- | Hq]; auto.
Qed.

(** X1.  [piece_at] and [is_piece_at] agree: where [is_piece_at] is true,
    [piece_at] returns the first piece of the list standing on the square;
    where it is false, [piece_at] raises its [ValueError], "No piece at given
    location". *)
Theorem piece_at_first (x y : Z) (B : Board) :
  (is_piece_at x y B = true ->
   exists before q after,
     snd B = before ++ q :: after /\
     pos_x q = x /\ pos_y q = y /\
     (forall p, In p before -> ~ (pos_x p = x /\ pos_y p = y)) /\
     piece_at x y B = Ret q) /\
  (is_piece_at x y B = false ->
   piece_at x y B = Raise (ValueError no_piece_at_location)).
Proof.
  split.
  - intros Hocc.
    destruct (piece_at_present x y B Hocc) as [q [Hq _]].
    unfold piece_at in Hq |- *.
    destruct (find _ (snd B)) as [q' |] eqn:Hfind; [| discriminate].
    inversion Hq; subst q'; clear Hq.
    destruct (find_first_split _ _ _ Hfind) as [before [after [HB [Hat Hnone]]]].
    apply (at_square_iff x y q) in Hat; destruct Hat.
    exists before, q, after; repeat split; auto.
    intros p Hp Hpat; apply (at_square_iff x y p) in Hpat.
    pose proof (Hnone p Hp) as Hfree; cbv beta in Hfree.
    unfold at_square in Hpat; congruence.
  - intros Hfree; unfold piece_at.
    destruct (find _ (snd B)) as [q |] eqn:Hfind; [| reflexivity].
    apply find_some in Hfind; destruct Hfind as [Hin Hat].
    apply (at_square_iff x y q) in Hat.
    exfalso; exact (proj1 (is_piece_at_false x y B) Hfree q Hin Hat).
Qed.

Lemma piece_at_first_witness :
  exists before q after,
    snd check_board = before ++ q :: after /\
    pos_x q = 4 /\ pos_y q = 4 /\
    (forall p, In p before -> ~ (pos_x p = 4 /\ pos_y p = 4)) /\
    piece_at 4 4 check_board = Ret q.
Proof.
  apply (proj1 (piece_at_first 4 4 check_board)); reflexivity.
Defined.

(** ** What [can_move_to] can end in *)

Lemma has_King_find (side_ : bool) (B : Board) :
  has_King side_ B <-> find (is_King_of side_) (snd B) <> None.
Proof.
  split.
  - intros H; destruct (find_King_present side_ B H) as [king [Hfind _]].
    congruence.
  - destruct (find (is_King_of side_) (snd B)) as [king |] eqn:Hfind;
      [intros _ | congruence].
    apply find_some in Hfind; destruct Hfind as [Hin Hk].
    apply is_King_of_iff in Hk; exists king; tauto.
Qed.

Lemma is_check_no_King (side_ : bool) (B : Board) :
  ~ has_King side_ B -> is_check side_ B = Raise (ValueError no_King_found).
Proof.
  rewrite has_King_find; unfold is_check.
  destruct (find (is_King_of side_) (snd B)); [intros H; exfalso; apply H |];
    congruence.
Qed.

Lemma is_check_outcome (side_ : bool) (B : Board) :
  (has_King side_ B /\ exists b, is_check side_ B = Ret b) \/
  (~ has_King side_ B /\ is_check side_ B = Raise (ValueError no_King_found)).
Proof.
  destruct (find (is_King_of side_) (snd B)) as [king |] eqn:Hfind.
  - left; assert (H : has_King side_ B) by (apply has_King_find; congruence).
    split; [exact H | apply is_check_returns; exact H].
  - right; assert (H : ~ has_King side_ B) by (rewrite has_King_find; congruence).
    split; [exact H | apply is_check_no_King; exact H].
Qed.

Lemma capture_then_check_outcomes (self : Piece) (pos_X pos_Y : Z) (B : Board)
      (moved : outcome Board) :
  moved = move_to self pos_X pos_Y B ->
  (pos_X, pos_Y) <> (pos_x self, pos_y self) ->
  (exists b,
      (own <-
         (if is_piece_at pos_X pos_Y B
          then piece <- piece_at pos_X pos_Y B ;;
               Ret (Bool.eqb (side piece) (side self))
          else Ret false) ;;
       if own then Ret false
       else
         temp_board <- moved ;;
         check <- is_check (side self) temp_board ;;
         if check then Ret false else Ret true) = Ret b) \/
  ((own <-
      (if is_piece_at pos_X pos_Y B
       then piece <- piece_at pos_X pos_Y B ;;
            Ret (Bool.eqb (side piece) (side self))
       else Ret false) ;;
    if own then Ret false
    else
      temp_board <- moved ;;
      check <- is_check (side self) temp_board ;;
      if check then Ret false else Ret true)
   = Raise (ValueError no_King_found) /\
   kind self = Bishop /\ ~ has_King (side self) B).
Proof.
  intros -> Hne.
  destruct (move_to_returns self pos_X pos_Y B Hne) as [rest [Hmove Hkeep]].
  assert (Hafter :
            (forall q, piece_at pos_X pos_Y B = Ret q -> side q <> side self) ->
            (exists b,
                (temp_board <- move_to self pos_X pos_Y B ;;
                 check <- is_check (side self) temp_board ;;
                 if check then Ret false else Ret true) = Ret b) \/
            ((temp_board <- move_to self pos_X pos_Y B ;;
              check <- is_check (side self) temp_board ;;
              if check then Ret false else Ret true)
             = Raise (ValueError no_King_found) /\
             kind self = Bishop /\ ~ has_King (side self) B)).
  { intros Hcapt; rewrite Hmove; cbn [bind].
    destruct (is_check_outcome (side self)
                (fst B, rest ++ [moved_piece self pos_X pos_Y B]))
      as [[_ [c Hc]] | [Hnone Hc]]; rewrite Hc; cbn [bind].
    - left; destruct c; eauto.
    - right; split; [reflexivity |].
      destruct (kind self) eqn:Hkind.
      + exfalso; apply Hnone.
        exists (moved_piece self pos_X pos_Y B); simpl.
        split; [apply in_or_app; right; left; reflexivity |].
        unfold moved_piece; simpl; auto.
      + split; [reflexivity |].
        intros Hking; apply Hnone.
        apply moved_board_has_King; assumption. }
  destruct (is_piece_at pos_X pos_Y B) eqn:Hocc.
  - destruct (piece_at_present pos_X pos_Y B Hocc) as [q [Hq _]].
    rewrite Hq in *; cbn [bind].
    destruct (Bool.eqb (side q) (side self)) eqn:Hside; [left; eauto |].
    apply Hafter; intros q' Hq'; inversion Hq'; subst q'.
    apply Bool.eqb_false_iff; exact Hside.
  - cbn [bind]; apply Hafter; intros q Hq.
    apply piece_at_Ret in Hq; destruct Hq as [Hin Hq].
    apply (proj1 (is_piece_at_false pos_X pos_Y B)) in Hq; tauto.
Qed.

(** X2.  [can_move_to] returns a boolean or raises the "No King found" error
    of [is_check], and nothing else: the look-up of the captured piece and its
    removal in the trial move never fail.  It raises only for a bishop whose
    side has no king on the board; a king's [can_move_to] always returns. *)
Theorem can_move_to_outcomes (self : Piece) (pos_X pos_Y : Z) (B : Board) :
  (exists b, can_move_to self pos_X pos_Y B = Ret b) \/
  (can_move_to self pos_X pos_Y B = Raise (ValueError no_King_found) /\
   kind self = Bishop /\ ~ has_King (side self) B).
Proof.
  unfold can_move_to; destruct (kind self) eqn:Hkind.
  - unfold King_can_move_to.
    destruct (negb _); [left; eauto |].
    destruct (Z.eqb (pos_x self) pos_X && Z.eqb (pos_y self) pos_Y) eqn:Hsame;
      [left; eauto |].
    destruct (_ >? 1); [left; eauto |].
    destruct (capture_then_check_outcomes self pos_X pos_Y B
                (King_move_to self pos_X pos_Y B)) as [Hret | [_ [Hb _]]].
    + unfold move_to; rewrite Hkind; reflexivity.
    + rewrite andb_false_iff, !Z.eqb_neq in Hsame.
      intros Heq; inversion Heq; lia.
    + left; exact Hret.
    + congruence.
  - unfold Bishop_can_move_to.
    destruct (Bishop_can_reach_cases self pos_X pos_Y B) as [reach [Hreach Hcase]].
    rewrite Hreach; cbn [bind].
    destruct reach; cbn [negb]; [| left; eauto].
    destruct (capture_then_check_outcomes self pos_X pos_Y B
                (Bishop_move_to self pos_X pos_Y B)) as [Hret | [Hraise [_ Hnone]]].
    + unfold move_to; rewrite Hkind; reflexivity.
    + apply Hcase; reflexivity.
    + left; exact Hret.
    + right; auto.
Qed.

(** ** Stalemate *)

(** X3.  [is_stalemate] mirrors [is_checkmate].  On a board with a king of the
    side it returns: false when [is_check] is true, and otherwise true exactly
    when no piece of the side has a square of the board it can move to.  On a
    board without a king of the side both [is_stalemate] and [is_checkmate]
    raise the "No King found" error. *)
Theorem is_stalemate_spec :
  (forall side_ B,
      has_King side_ B ->
      exists check stale,
        is_check side_ B = Ret check /\
        is_stalemate side_ B = Ret stale /\
        (check = true -> stale = false) /\
        (check = false ->
         (stale = true <->
          forall p x y, In p (snd B) -> side p = side_ ->
                        1 <= x <= fst B -> 1 <= y <= fst B ->
                        can_move_to p x y B <> Ret true))) /\
  (forall side_ B,
      ~ has_King side_ B ->
      is_stalemate side_ B = Raise (ValueError no_King_found) /\
      is_checkmate side_ B = Raise (ValueError no_King_found)).
Proof.
  split.
  - intros side_ B Hking.
    destruct (is_stalemate_iff side_ B Hking) as [check [stale [Hc [Hs Hiff]]]].
    exists check, stale; split; [exact Hc |]; split; [exact Hs |]; split.
    + intros ->; destruct stale; [| reflexivity].
      destruct (proj1 Hiff eq_refl); discriminate.
    + intros Hcheck; split.
      * intros Hstale; apply Hiff; exact Hstale.
      * intros Hnone; apply Hiff; auto.
  - intros side_ B Hnone; apply is_check_no_King in Hnone.
    unfold is_stalemate, is_checkmate; rewrite Hnone; split; reflexivity.
Qed.

Lemma stalemate_board_has_King : has_King false stalemate_board.
Proof.
  exists (mkPiece 0 King 1 1 false); simpl; repeat split; tauto.
Defined.

Lemma is_stalemate_spec_witness :
  exists check stale,
    is_check false stalemate_board = Ret check /\
    is_stalemate false stalemate_board = Ret stale /\
    (check = true -> stale = false) /\
    (check = false ->
     (stale = true <->
      forall p x y, In p (snd stalemate_board) -> side p = false ->
                    1 <= x <= fst stalemate_board ->
                    1 <= y <= fst stalemate_board ->
                    can_move_to p x y stalemate_board <> Ret true)).
Proof.
  exact (proj1 is_stalemate_spec false stalemate_board stalemate_board_has_King).
Defined.

(** ** Legal moves and the board invariants *)

(** The conditions [can_move_to] tests, read off a move it accepts. *)
Lemma legal_move_facts (self : Piece) (pos_X pos_Y : Z) (B : Board) :
  can_move_to self pos_X pos_Y B = Ret true ->
  (1 <= pos_X <= fst B /\ 1 <= pos_Y <= fst B) /\
  (pos_X, pos_Y) <> (pos_x self, pos_y self) /\
  (is_piece_at pos_X pos_Y B = false \/
   exists q, piece_at pos_X pos_Y B = Ret q /\ side q <> side self) /\
  (exists B', move_to self pos_X pos_Y B = Ret B' /\
              is_check (side self) B' = Ret false).
Proof.
  intros Hlegal; pose proof (legal_target_differs _ _ _ _ Hlegal) as Hne.
  revert Hlegal; unfold can_move_to, move_to; destruct (kind self).
  - unfold King_can_move_to.
    destruct ((1 <=? pos_X) && (pos_X <=? fst B) && (1 <=? pos_Y)
              && (pos_Y <=? fst B)) eqn:Hbounds; cbn [negb]; [| discriminate].
    rewrite !andb_true_iff, !Z.leb_le in Hbounds.
    destruct (Z.eqb (pos_x self) pos_X && Z.eqb (pos_y self) pos_Y);
      [discriminate |].
    destruct (_ >? 1); [discriminate |].
    rewrite capture_then_check_iff; intros [Hocc Hcheck].
    repeat split; auto; lia.
  - unfold Bishop_can_move_to.
    destruct (Bishop_can_reach_cases self pos_X pos_Y B) as [reach [Hreach Hcase]].
    rewrite Hreach; cbn [bind].
    destruct reach; cbn [negb]; [| discriminate].
    rewrite capture_then_check_iff; intros [Hocc Hcheck].
    destruct (Hcase eq_refl) as [Hbounds _].
    repeat split; auto; lia.
Qed.

Lemma is_check_Ret_has_King (side_ : bool) (B : Board) (b : bool) :
  is_check side_ B = Ret b -> has_King side_ B.
Proof.
  intros Hc; destruct (is_check_outcome side_ B) as [[H _] | [_ H]];
    [exact H | congruence].
Qed.

Lemma NoDup_snoc {A : Type} (l : list A) (a : A) :
  NoDup l -> ~ In a l -> NoDup (l ++ [a]).
Proof.
  intros Hl Ha.
  apply (Permutation_NoDup (Permutation_cons_append l a)).
  constructor; assumption.
Qed.

(** X4.  A legal move keeps the board well formed.  When no two pieces share
    a square and every piece is on the board, the board [move_to] returns for
    a piece of the board and a target its [can_move_to] accepts has these two
    properties again; the mover's side still has its king, is not in check, and
    so is not checkmated. *)
Theorem legal_move_keeps_board (P : Piece) (x y : Z) (B : Board) :
  no_overlap B ->
  (forall p, In p (snd B) ->
             1 <= pos_x p <= fst B /\ 1 <= pos_y p <= fst B) ->
  In P (snd B) ->
  can_move_to P x y B = Ret true ->
  exists B',
    move_to P x y B = Ret B' /\
    no_overlap B' /\
    (forall p, In p (snd B') ->
               1 <= pos_x p <= fst B' /\ 1 <= pos_y p <= fst B') /\
    has_King (side P) B' /\
    is_check (side P) B' = Ret false /\
    is_checkmate (side P) B' = Ret false.
Proof.
  intros Hnd Hon HP Hlegal.
  destruct (legal_move_facts P x y B Hlegal)
    as [Hbounds [Hne [_ [B' [Hmove Hcheck]]]]].
  pose proof (move_to_no_overlap P x y B Hnd HP Hne) as Hshape.
  rewrite Hmove in Hshape; inversion Hshape; subst B'; clear Hshape.
  eexists; split; [exact Hmove |].
  split; [| split; [| split; [| split]]].
  - unfold no_overlap; cbn [snd]; rewrite map_app.
    apply NoDup_snoc.
    + apply NoDup_position_filter; exact Hnd.
    + intros Hin; apply in_map_iff in Hin; destruct Hin as [p [Hp Hin]].
      apply filter_In in Hin; destruct Hin as [_ Hkeep].
      apply andb_true_iff in Hkeep; destruct Hkeep as [_ Hkeep].
      apply negb_true_iff, not_true_iff_false in Hkeep; apply Hkeep.
      apply at_square_iff; unfold position, moved_piece in Hp; simpl in Hp.
      inversion Hp; auto.
  - cbn [fst snd]; intros p Hp; apply in_app_or in Hp.
    destruct Hp as [Hp | [<- | []]].
    + apply filter_In in Hp; apply Hon; tauto.
    + exact Hbounds.
  - apply (is_check_Ret_has_King _ _ false); exact Hcheck.
  - exact Hcheck.
  - unfold is_checkmate; rewrite Hcheck; reflexivity.
Qed.

Lemma legal_move_keeps_board_witness :
  exists B',
    move_to (mkPiece 0 Bishop 4 4 true) 3 3 capture_board = Ret B' /\
    no_overlap B' /\
    (forall p, In p (snd B') ->
               1 <= pos_x p <= fst B' /\ 1 <= pos_y p <= fst B') /\
    has_King true B' /\
    is_check true B' = Ret false /\
    is_checkmate true B' = Ret false.
Proof.
  apply (legal_move_keeps_board (mkPiece 0 Bishop 4 4 true) 3 3 capture_board).
  - unfold no_overlap; simpl.
    repeat constructor; simpl; intuition discriminate.
  - intros p Hp; simpl in Hp.
    repeat (destruct Hp as [<- | Hp]; [simpl; lia |]); destruct Hp.
  - simpl; left; reflexivity.
  - vm_compute; reflexivity.
Defined.

Lemma list_remove_absent (x : Piece) (l : list Piece) :
  ~ In x l -> list_remove x l = Raise (ValueError not_in_list).
Proof.
  induction l as [| y l IH]; intros Hnot; [reflexivity |].
  simpl; destruct (same_object y x) eqn:Hyx.
  - apply same_object_eq in Hyx; subst y; exfalso; apply Hnot; left; reflexivity.
  - rewrite IH; [reflexivity | intros Hin; apply Hnot; right; exact Hin].
Qed.

(** X5.  [move_to] does not accept a piece's own square as the target: on a
    board where no two pieces share a square, for a piece of the board, it
    raises the [ValueError] of [list.remove], the piece found on the target
    being the mover, which is no longer in the list it is removed from. *)
Theorem move_to_own_square (P : Piece) (B : Board) :
  no_overlap B ->
  In P (snd B) ->
  move_to P (pos_x P) (pos_y P) B = Raise (ValueError not_in_list).
Proof.
  intros Hnd HP; rewrite move_to_unfold.
  assert (Hocc : is_piece_at (pos_x P) (pos_y P) B = true).
  { apply is_piece_at_true; exists P; auto. }
  rewrite Hocc.
  destruct (piece_at_present _ _ _ Hocc) as [q [Hq [Hin [Hx Hy]]]].
  assert (q = P).
  { apply (NoDup_position_inj (snd B)); auto.
    unfold position; congruence. }
  subst q; rewrite Hq; cbn [bind].
  rewrite list_remove_absent; [reflexivity |].
  intros Hin'; apply In_filter_other in Hin'; destruct Hin' as [_ Hne].
  apply Hne; reflexivity.
Qed.

Lemma move_to_own_square_witness :
  move_to (mkPiece 0 Bishop 4 4 true) 4 4 capture_board
  = Raise (ValueError not_in_list).
Proof.
  apply (move_to_own_square (mkPiece 0 Bishop 4 4 true) capture_board).
  - unfold no_overlap; simpl.
    repeat constructor; simpl; intuition discriminate.
  - simpl; left; reflexivity.
Defined.

(** ** Kings *)

Lemma not_at_square (x y : Z) (p : Piece) :
  (pos_x p, pos_y p) <> (x, y) -> negb (at_square x y p) = true.
Proof.
  intros Hne; apply negb_true_iff.
  destruct (at_square x y p) eqn:Hat; [| reflexivity].
  apply at_square_iff in Hat; destruct Hat; exfalso; apply Hne; congruence.
Qed.

Lemma In_bystanders (self p : Piece) (x y : Z) (B : Board) :
  In p (bystanders self x y B) <->
  In p (snd B) /\
  (pos_x p, pos_y p) <> (pos_x self, pos_y self) /\
  (pos_x p, pos_y p) <> (x, y).
Proof.
  unfold bystanders; rewrite filter_In, andb_true_iff, !negb_true_iff.
  split; intros [Hin [H1 H2]]; (split; [exact Hin |]).
  - split; intros Heq; inversion Heq as [[Hx Hy]].
    + assert (at_square (pos_x self) (pos_y self) p = true)
        by (apply at_square_iff; auto).
      congruence.
    + assert (at_square x y p = true) by (apply at_square_iff; auto).
      congruence.
  - split; apply negb_true_iff, not_at_square; assumption.
Qed.

Lemma other_side_other_square (B : Board) (p q : Piece) :
  no_overlap B -> In p (snd B) -> In q (snd B) -> side p <> side q ->
  (pos_x p, pos_y p) <> (pos_x q, pos_y q).
Proof.
  intros Hnd Hp Hq Hside Heq; apply Hside.
  rewrite (NoDup_position_inj (snd B) p q Hnd Hp Hq Heq); reflexivity.
Qed.

Lemma find_snoc {A : Type} (f : A -> bool) (l : list A) (a : A) :
  (forall p, In p l -> f p = false) -> f a = true ->
  find f (l ++ [a]) = Some a.
Proof.
  intros Hnone Ha; induction l as [| p l IH]; simpl.
  - rewrite Ha; reflexivity.
  - rewrite (Hnone p (or_introl eq_refl)); apply IH.
    intros q Hq; apply Hnone; right; exact Hq.
Qed.

(** X6.  Nothing in [move_to] or [can_move_to] protects a king from capture.
    When a piece moves onto the square of the only king of the other side,
    [move_to] returns a board without that king, and on this board [is_check],
    [is_checkmate] and [is_stalemate] for the king's side all raise the
    "No King found" error. *)
Theorem king_capture_leaves_no_King (P king : Piece) (B : Board) :
  no_overlap B ->
  In P (snd B) ->
  In king (snd B) ->
  kind king = King ->
  side king <> side P ->
  (forall q, In q (snd B) -> kind q = King -> side q = side king -> q = king) ->
  exists B',
    move_to P (pos_x king) (pos_y king) B = Ret B' /\
    ~ has_King (side king) B' /\
    is_check (side king) B' = Raise (ValueError no_King_found) /\
    is_checkmate (side king) B' = Raise (ValueError no_King_found) /\
    is_stalemate (side king) B' = Raise (ValueError no_King_found).
Proof.
  intros Hnd HP Hk Hkind Hside Honly.
  pose proof (other_side_other_square B king P Hnd Hk HP Hside) as Hne.
  eexists; split; [apply move_to_no_overlap; assumption |].
  assert (Hnone : ~ has_King (side king)
                    (fst B, bystanders P (pos_x king) (pos_y king) B
                              ++ [moved_piece P (pos_x king) (pos_y king) B])).
  { intros [q [Hq [Hqk Hqs]]]; cbn [snd] in Hq.
    apply in_app_or in Hq; destruct Hq as [Hq | [<- | []]].
    - apply In_bystanders in Hq; destruct Hq as [Hq [_ Hoff]].
      apply Hoff; rewrite (Honly q Hq Hqk Hqs); reflexivity.
    - unfold moved_piece in Hqs; cbn [side] in Hqs; auto. }
  split; [exact Hnone |].
  pose proof (is_check_no_King _ _ Hnone) as Hcheck.
  unfold is_checkmate, is_stalemate; rewrite Hcheck; repeat split.
Qed.

Lemma king_capture_leaves_no_King_witness :
  exists B',
    move_to (mkPiece 1 Bishop 3 1 true) 2 2
            (3, [mkPiece 0 King 2 2 false; mkPiece 1 Bishop 3 1 true;
                 mkPiece 2 King 1 3 true])
    = Ret B' /\
    ~ has_King false B' /\
    is_check false B' = Raise (ValueError no_King_found) /\
    is_checkmate false B' = Raise (ValueError no_King_found) /\
    is_stalemate false B' = Raise (ValueError no_King_found).
Proof.
  apply (king_capture_leaves_no_King
           (mkPiece 1 Bishop 3 1 true) (mkPiece 0 King 2 2 false)
           (3, [mkPiece 0 King 2 2 false; mkPiece 1 Bishop 3 1 true;
                mkPiece 2 King 1 3 true])).
  - unfold no_overlap; simpl.
    repeat constructor; simpl; intuition discriminate.
  - simpl; tauto.
  - simpl; tauto.
  - reflexivity.
  - discriminate.
  - intros q Hq; simpl in Hq.
    repeat (destruct Hq as [<- | Hq]; [simpl; intros; congruence |]); destruct Hq.
Defined.

Lemma King_can_move_to_returns (self : Piece) (pos_X pos_Y : Z) (B : Board) :
  kind self = King -> exists b, can_move_to self pos_X pos_Y B = Ret b.
Proof.
  intros Hkind; unfold can_move_to; rewrite Hkind; unfold King_can_move_to.
  destruct (negb _); [eauto |].
  destruct (Z.eqb (pos_x self) pos_X && Z.eqb (pos_y self) pos_Y) eqn:Hsame;
    [eauto |].
  destruct (_ >? 1); [eauto |].
  destruct (capture_then_check_outcomes self pos_X pos_Y B
              (King_move_to self pos_X pos_Y B)) as [Hret | [_ [Hb _]]].
  - unfold move_to; rewrite Hkind; reflexivity.
  - rewrite andb_false_iff, !Z.eqb_neq in Hsame.
    intros Heq; inversion Heq; lia.
  - exact Hret.
  - congruence.
Qed.

(** X7.  The two kings never come to stand side by side.  On a board where no
    two pieces share a square, the only king of its side is refused every
    square next to a king of the other side: [can_move_to] returns false,
    because on the trial board that king [can_reach] the square. *)
Theorem kings_keep_apart (P enemy : Piece) (x y : Z) (B : Board) :
  no_overlap B ->
  In P (snd B) ->
  kind P = King ->
  (forall q, In q (snd B) -> kind q = King -> side q = side P -> q = P) ->
  In enemy (snd B) ->
  kind enemy = King ->
  side enemy <> side P ->
  (pos_x enemy, pos_y enemy) <> (x, y) ->
  Z.abs (pos_x enemy - x) <= 1 ->
  Z.abs (pos_y enemy - y) <= 1 ->
  can_move_to P x y B = Ret false.
Proof.
  intros Hnd HP HkP Honly He Hke Hside Hoff Hdx Hdy.
  destruct (King_can_move_to_returns P x y B HkP) as [b Hb].
  destruct b; [exfalso | exact Hb].
  destruct (legal_move_facts _ _ _ _ Hb) as [_ [Hne [_ [B' [Hmove Hcheck]]]]].
  rewrite (move_to_no_overlap P x y B Hnd HP Hne) in Hmove.
  inversion Hmove; subst B'; clear Hmove.
  assert (Hfind : find (is_King_of (side P))
                       (snd (fst B, bystanders P x y B ++ [moved_piece P x y B]))
                  = Some (moved_piece P x y B)).
  { cbn [snd]; apply find_snoc.
    - intros p Hp; apply In_bystanders in Hp; destruct Hp as [Hp [HpP _]].
      destruct (is_King_of (side P) p) eqn:Hking; [| reflexivity].
      apply is_King_of_iff in Hking; destruct Hking as [Hpk Hps].
      exfalso; apply HpP; rewrite (Honly p Hp Hpk Hps); reflexivity.
    - apply is_King_of_iff; unfold moved_piece; cbn [kind side]; auto. }
  destruct (is_check_found _ _ _ Hfind) as [b [Hb' Hiff]].
  rewrite Hb' in Hcheck; inversion Hcheck; subst b.
  assert (Habs : false = true); [| discriminate].
  apply Hiff; exists enemy; split; [| split; [exact Hside |]].
  - cbn [snd]; apply in_or_app; left; apply In_bystanders.
    split; [exact He |]; split; [| exact Hoff].
    apply (other_side_other_square B); assumption.
  - unfold can_reach; rewrite Hke; unfold King_can_reach, moved_piece.
    cbn [pos_x pos_y]; f_equal; rewrite andb_true_iff, !Z.leb_le; lia.
Qed.

Lemma kings_keep_apart_witness :
  can_move_to (mkPiece 0 King 1 1 false) 2 1 stalemate_board = Ret false.
Proof.
  apply (kings_keep_apart (mkPiece 0 King 1 1 false) (mkPiece 1 King 3 2 true)
                          2 1 stalemate_board).
  - unfold no_overlap; simpl.
    repeat constructor; simpl; intuition discriminate.
  - simpl; tauto.
  - reflexivity.
  - intros q Hq; simpl in Hq.
    repeat (destruct Hq as [<- | Hq]; [simpl; intros; congruence |]); destruct Hq.
  - simpl; tauto.
  - reflexivity.
  - discriminate.
  - discriminate.
  - simpl; lia.
  - simpl; lia.
Defined.

(** ** The shape of a legal move *)

(** X8.  What a legal move looks like on the board.  A target [can_move_to]
    accepts for a king is one of the eight squares around it; a target it
    accepts for a bishop lies on a diagonal through the bishop, at least one
    step away, so on a square of the bishop's colour. *)
Theorem legal_move_geometry (P : Piece) (x y : Z) (B : Board) :
  can_move_to P x y B = Ret true ->
  match kind P with
  | King => Z.max (Z.abs (x - pos_x P)) (Z.abs (y - pos_y P)) = 1
  | Bishop =>
      Z.abs (x - pos_x P) = Z.abs (y - pos_y P) /\
      0 < Z.abs (x - pos_x P) /\
      Z.even (x + y) = Z.even (pos_x P + pos_y P)
  end.
Proof.
  unfold can_move_to; destruct (kind P).
  - unfold King_can_move_to.
    destruct (negb _); [discriminate |].
    destruct (Z.eqb (pos_x P) x && Z.eqb (pos_y P) y) eqn:Hsame; [discriminate |].
    rewrite andb_false_iff, !Z.eqb_neq in Hsame.
    destruct (_ >? 1) eqn:Hfar; [discriminate |].
    intros _; rewrite Z.gtb_ltb, Z.ltb_ge in Hfar; lia.
  - unfold Bishop_can_move_to, Bishop_can_reach.
    destruct (negb _); [discriminate |].
    destruct (Z.eqb (pos_x P) x && Z.eqb (pos_y P) y) eqn:Hsame; [discriminate |].
    rewrite andb_false_iff, !Z.eqb_neq in Hsame.
    destruct (Z.eqb (Z.abs (pos_x P - x)) (Z.abs (pos_y P - y))) eqn:Hdiag;
      cbn [negb]; [| discriminate].
    apply Z.eqb_eq in Hdiag; intros _.
    split; [lia |]; split; [lia |].
    assert (Hk : exists k, x + y = pos_x P + pos_y P + 2 * k).
    { destruct (Z.abs_eq_cases (pos_x P - x) (pos_y P - y) Hdiag) as [Heq | Heq].
      - exists (x - pos_x P); lia.
      - exists 0; lia. }
    destruct Hk as [k ->]; rewrite Z.even_add_mul_2; reflexivity.
Qed.

Lemma legal_move_geometry_witness :
  Z.abs (3 - 4) = Z.abs (3 - 4) /\
  0 < Z.abs (3 - 4) /\
  Z.even (3 + 3) = Z.even (4 + 4).
Proof.
  apply (legal_move_geometry (mkPiece 0 Bishop 4 4 true) 3 3 capture_board).
  vm_compute; reflexivity.
Defined.

(** * Further properties of the codecs *)

(** ** Coordinates *)

Lemma lower_ord (c : ascii) :
  ord (lower c) = if capital (ord c) then ord c + 32 else ord c.
Proof.
  unfold lower, capital.
  destruct (((65 <=? ord c) && (ord c <=? 90))
            || ((192 <=? ord c) && (ord c <=? 222) && negb (ord c =? 215)))
           eqn:Hcap; [| reflexivity].
  apply ord_ascii_of_N.
  rewrite orb_true_iff, !andb_true_iff, !Z.leb_le in Hcap; lia.
Qed.

(** X10.  The round trip of a coordinate through [index2location] and
    [location2index], for the files -96..159, those written with a character
    of code 0..255, and a rank within the digit limit.  [index2location]
    returns a location, and [location2index] reads the rank back as it was and
    the file 32 higher when the letter written for it is a capital, unchanged
    otherwise. *)
Theorem coordinate_roundtrip_capitals (x y : Z) :
  -96 <= x <= 159 ->
  Z.abs y < 10 ^ 4300 ->
  exists loc,
    index2location x y = Ret loc /\
    location2index loc = Ret (if capital (x + 96) then x + 32 else x, y).
Proof.
  intros Hx Hy; unfold index2location; change (ord "a") with 97.
  destruct (py_str_text y Hy) as [row [Hrow _]].
  rewrite chr_latin by lia; rewrite Hrow; cbn [bind].
  eexists; split; [reflexivity |].
  unfold location2index; rewrite (py_int_py_str y row Hrow); cbn [bind].
  rewrite lower_ord, ord_ascii_of_N by lia; change (ord "a") with 97.
  replace (x + 97 - 1) with (x + 96) by lia.
  destruct (capital (x + 96)); f_equal; f_equal; lia.
Qed.

Lemma coordinate_roundtrip_capitals_witness :
  exists loc,
    index2location (-31) 7 = Ret loc /\
    location2index loc
    = Ret (if capital (-31 + 96) then -31 + 32 else -31, 7).
Proof.
  apply (coordinate_roundtrip_capitals (-31) 7); [lia | vm_compute; reflexivity].
Defined.

(** ** Reading a board *)







Lemma split_lines_nil (s : string) : split_lines s = [] -> s = EmptyString.
Proof.
  destruct s as [| c s]; [reflexivity |]; simpl.
  destruct (Ascii.eqb c "010"); [discriminate |].
  destruct (split_lines s); discriminate.
Qed.

Lemma readlines_nil (text : string) : readlines text = [] <-> text = EmptyString.
Proof.
  split; [| intros ->; reflexivity].
  unfold readlines; intros H; apply split_lines_nil in H.
  destruct text as [| c text]; [reflexivity |]; simpl in H.
  destruct (Ascii.eqb c "013"); [| discriminate].
  destruct text as [| c2 text]; [discriminate |].
  destruct (Ascii.eqb c2 "010"); discriminate.
Qed.


Lemma read_piece_appends (side_ : bool) (pieces : list Piece) (piece : string)
      (r : list Piece) :
  read_piece side_ pieces piece = Ret r ->
  exists new, r = pieces ++ new /\ forall p, In p new -> side p = side_.
Proof.
  destruct piece as [| piece_type pos]; simpl; [discriminate |].
  destruct (location2index pos) as [xy | |]; simpl; try discriminate.
  assert (Hone : forall k,
            exists new,
              pieces ++ [mkPiece (fresh_oid pieces) k (fst xy) (snd xy) side_]
              = pieces ++ new /\
              forall p, In p new -> side p = side_).
  { intros k; eexists; split; [reflexivity |].
    intros p [<- | []]; reflexivity. }
  destruct (Ascii.eqb piece_type "K"); [intros H; inversion H; apply Hone |].
  destruct (Ascii.eqb piece_type "B"); intros H; inversion H; [apply Hone |].
  exists []; rewrite app_nil_r; split; [reflexivity | intros p []].
Qed.

Lemma fold_m_appends {A : Type} (P : Piece -> Prop)
      (f : list Piece -> A -> outcome (list Piece)) (l : list A) :
  (forall a, In a l ->
             forall pieces r, f pieces a = Ret r ->
                              exists new, r = pieces ++ new /\
                                          forall p, In p new -> P p) ->
  forall pieces r,
    fold_m f l pieces = Ret r ->
    exists new, r = pieces ++ new /\ forall p, In p new -> P p.
Proof.
  induction l as [| a l IH]; intros Hf pieces r; simpl.
  - intros H; inversion H; exists []; rewrite app_nil_r.
    split; [reflexivity | intros p []].
  - destruct (f pieces a) as [mid | |] eqn:Hmid; simpl; try discriminate.
    intros Hr.
    destruct (Hf a (or_introl eq_refl) pieces mid Hmid) as [new1 [-> Hnew1]].
    destruct (IH (fun b Hb => Hf b (or_intror Hb)) _ _ Hr) as [new2 [-> Hnew2]].
    exists (new1 ++ new2); rewrite app_assoc; split; [reflexivity |].
    intros p Hp; apply in_app_or in Hp; destruct Hp; auto.
Qed.

Lemma read_line_appends (i : nat) (line : string) (pieces r : list Piece) :
  read_line pieces (i, line) = Ret r ->
  exists new, r = pieces ++ new /\ forall p, In p new -> side p = Nat.eqb i 0.
Proof.
  unfold read_line; destruct (String.eqb (strip line) "").
  - intros H; inversion H; exists []; rewrite app_nil_r.
    split; [reflexivity | intros p []].
  - apply (fold_m_appends (fun p => side p = Nat.eqb i 0)).
    intros tok _ ps r'; apply read_piece_appends.
Qed.

(** X12.  The sides [read_board] gives.  The board it returns has the size
    written on the first line and lists the white pieces before the black
    ones; the white pieces are those of the second line of the file and of no
    other line, every later line being read as Black (also the third one when
    the second is blank). *)
Theorem read_board_sides (filename : string) (fs : files) (text first : string)
        (rest : list string) (B : Board) :
  file_text filename fs = Some text ->
  readlines text = first :: rest ->
  read_board filename fs = Ret B ->
  py_int (strip first) = Ret (fst B) /\
  exists whites blacks,
    snd B = whites ++ blacks /\
    (forall p, In p whites -> side p = true) /\
    (forall p, In p blacks -> side p = false) /\
    match rest with
    | [] => whites = []
    | second :: _ => read_line [] (0%nat, second) = Ret whites
    end.
Proof.
  intros Hfile Hlines; unfold read_board.
  destruct (system_open fs for_reading filename); [| discriminate ..].
  rewrite Hfile, Hlines.
  destruct (py_int (strip first)) as [size | |]; cbn [bind]; try discriminate.
  destruct (fold_m read_line (enumerate rest) []) as [pieces | |] eqn:Hfold;
    cbn [bind]; try discriminate.
  intros HB; inversion HB; subst B; clear HB; cbn [fst snd].
  split; [reflexivity |].
  unfold enumerate in Hfold; destruct rest as [| second more].
  - simpl in Hfold; inversion Hfold.
    exists [], []; repeat split; intros p [].
  - cbn [length seq combine fold_m] in Hfold.
    destruct (read_line [] (0%nat, second)) as [whites | |] eqn:Hwhite;
      cbn [bind] in Hfold; try discriminate.
    destruct (read_line_appends _ _ _ _ Hwhite) as [new [Hnew Hside]].
    simpl in Hnew; subst new.
    destruct (fold_m_appends (fun p => side p = false) read_line
                (combine (seq 1 (length more)) more)) with (2 := Hfold)
      as [blacks [-> Hblack]].
    { intros [i line] Hin ps r Hr.
      destruct (read_line_appends _ _ _ _ Hr) as [new [-> Hnew]].
      exists new; split; [reflexivity |].
      intros p Hp; rewrite (Hnew p Hp).
      apply in_combine_l, in_seq in Hin.
      destruct i; [lia | reflexivity]. }
    exists whites, blacks; repeat split; auto.
Qed.

Lemma read_board_sides_witness :
  py_int (strip (String "3" (String "010" EmptyString))) = Ret 3 /\
  exists whites blacks,
    [mkPiece 1 King 3 2 true; mkPiece 2 Bishop 2 3 true;
     mkPiece 3 King 1 1 false]
    = whites ++ blacks /\
    (forall p, In p whites -> side p = true) /\
    (forall p, In p blacks -> side p = false) /\
    read_line [] (0%nat, "Kc2, Bb3"%string ++ String "010" EmptyString)%string
    = Ret whites.
Proof.
  apply (read_board_sides
           "board.txt"
           (mkFiles
              [("board.txt"%string,
                ("3" ++ String "010" ("Kc2, Bb3" ++ String "010" "Ka1"))%string)]
              example_open)
           ("3" ++ String "010" ("Kc2, Bb3" ++ String "010" "Ka1"))%string
           (String "3" (String "010" EmptyString))
           [("Kc2, Bb3"%string ++ String "010" EmptyString)%string; "Ka1"%string]
           (3, [mkPiece 1 King 3 2 true; mkPiece 2 Bishop 2 3 true;
                mkPiece 3 King 1 1 false]));
    vm_compute; reflexivity.
Defined.

(** ** Writing a board *)














(** * Properties of the move selector *)

Lemma search_m_Some {A R : Type} (f : A -> outcome (option R)) (l : list A) (v : R) :
  search_m f l = Ret (Some v) -> exists a, In a l /\ f a = Ret (Some v).
Proof.
  induction l as [| a l IH]; simpl; [discriminate |].
  destruct (f a) as [[w |] | e |] eqn:Ha; simpl; try discriminate.
  - intros H; inversion H; subst w; exists a; auto.
  - intros H; destruct (IH H) as [b [Hb Hfb]]; exists b; auto.
Qed.

Lemma search_m_None {A R : Type} (f : A -> outcome (option R)) (l : list A) :
  search_m f l = Ret None -> forall a, In a l -> f a = Ret None.
Proof.
  induction l as [| a l IH]; simpl; [intros _ b [] |].
  destruct (f a) as [[w |] | e |] eqn:Ha; simpl; try discriminate.
  intros H b [<- | Hb]; auto.
Qed.

Lemma search_m_returns {A R : Type} (f : A -> outcome (option R)) (l : list A) :
  (forall a, In a l -> exists r, f a = Ret r) -> exists r, search_m f l = Ret r.
Proof.
  induction l as [| a l IH]; intros Hf; simpl; [eauto |].
  destruct (Hf a (or_introl eq_refl)) as [[w |] ->]; simpl; [eauto |].
  apply IH; intros b Hb; apply Hf; right; exact Hb.
Qed.

Lemma py_range_cons (lo hi : Z) :
  lo < hi -> py_range lo hi = lo :: py_range (lo + 1) hi.
Proof.
  intros Hlt; unfold py_range.
  replace (Z.to_nat (hi - lo)) with (S (Z.to_nat (hi - (lo + 1)))) by lia.
  cbn [seq map]; f_equal; [lia |].
  rewrite <- seq_shift, map_map; apply map_ext; intros i; lia.
Qed.

Lemma py_range_nil (lo hi : Z) : hi <= lo -> py_range lo hi = [].
Proof.
  intros Hle; unfold py_range.
  replace (Z.to_nat (hi - lo)) with 0%nat by lia; reflexivity.
Qed.

(** A search over a range stops at the least number that gives a value. *)
Lemma search_range_first {R : Type} (f : Z -> outcome (option R)) (lo hi : Z)
      (v : R) :
  search_m f (py_range lo hi) = Ret (Some v) ->
  exists x, lo <= x < hi /\ f x = Ret (Some v) /\
            forall z, lo <= z < x -> f z = Ret None.
Proof.
  remember (Z.to_nat (hi - lo)) as n eqn:Hn; revert lo Hn.
  induction n as [| n IH]; intros lo Hn.
  - rewrite py_range_nil by lia; discriminate.
  - rewrite py_range_cons by lia; simpl.
    destruct (f lo) as [[w |] | e |] eqn:Hlo; simpl; try discriminate.
    + intros H; inversion H; subst w.
      exists lo; split; [lia |]; split; [exact Hlo | intros z Hz; lia].
    + intros H; destruct (IH (lo + 1)) as [x [Hx [Hfx Hbefore]]]; [lia | exact H |].
      exists x; split; [lia |]; split; [exact Hfx |].
      intros z Hz; destruct (Z.eq_dec z lo) as [-> | Hne]; [exact Hlo |].
      apply Hbefore; lia.
Qed.

(** What the body of the innermost loop tells about [can_move_to]. *)
Lemma try_square_Some (piece : Piece) (x y : Z) (B : Board) (v : Piece * Z * Z) :
  (legal <- can_move_to piece x y B ;;
   if legal then Ret (Some (piece, x, y)) else Ret None) = Ret (Some v) ->
  can_move_to piece x y B = Ret true /\ v = (piece, x, y).
Proof.
  destruct (can_move_to piece x y B) as [[|] | e |]; simpl; try discriminate.
  intros H; inversion H; auto.
Qed.

Lemma try_square_None (piece : Piece) (x y : Z) (B : Board) :
  (legal <- can_move_to piece x y B ;;
   if legal then Ret (Some (piece, x, y)) else Ret None) = Ret None ->
  can_move_to piece x y B = Ret false.
Proof.
  destruct (can_move_to piece x y B) as [[|] | e |]; simpl; try discriminate.
  reflexivity.
Qed.

Lemma black_search_None (B : Board) (pieces : list Piece) :
  black_search B pieces = Ret None ->
  forall p x y, In p pieces -> 1 <= x <= fst B -> 1 <= y <= fst B ->
                can_move_to p x y B = Ret false.
Proof.
  intros Hnone p x y Hp Hx Hy; unfold black_search in Hnone.
  pose proof (search_m_None _ _ Hnone p Hp) as Hcols; cbv beta in Hcols.
  pose proof (search_m_None _ _ Hcols x) as Hcol; cbv beta in Hcol.
  specialize (Hcol ltac:(apply in_py_range; lia)).
  pose proof (search_m_None _ _ Hcol y) as Hsq; cbv beta in Hsq.
  apply try_square_None, Hsq, in_py_range; lia.
Qed.

Lemma black_search_returns (B : Board) (pieces : list Piece) :
  has_King false B ->
  (forall p, In p pieces -> side p = false) ->
  exists r, black_search B pieces = Ret r.
Proof.
  intros Hking Hblack; unfold black_search.
  apply search_m_returns; intros p Hp.
  apply search_m_returns; intros x _.
  apply search_m_returns; intros y _.
  destruct (can_move_to_returns p x y B) as [[|] ->]; simpl; eauto.
  rewrite (Hblack p Hp); exact Hking.
Qed.

Lemma find_black_move_unfold {rng : Type}
      (shuffle : rng -> list Piece -> list Piece * rng) (g : rng) (B : Board) :
  find_black_move shuffle g B =
  (match black_search B
           (fst (shuffle g (filter (fun piece => negb (side piece)) (snd B))))
   with
   | Ret (Some (piece, x, y)) => Selected piece x y
   | Ret None => NoValidMove
   | Raise e => Stopped e
   | Unmodelled => Unfollowed
   end,
   snd (shuffle g (filter (fun piece => negb (side piece)) (snd B)))).
Proof.
  unfold find_black_move, black_search.
  destruct (shuffle g (filter (fun piece => negb (side piece)) (snd B)));
    reflexivity.
Qed.

Lemma shuffled_blacks {rng : Type}
      (shuffle : rng -> list Piece -> list Piece * rng) (g : rng) (B : Board)
      (p : Piece) :
  (forall g l, Permutation (fst (shuffle g l)) l) ->
  (In p (fst (shuffle g (filter (fun piece => negb (side piece)) (snd B))))
   <-> In p (snd B) /\ side p = false).
Proof.
  intros Hperm; rewrite <- negb_true_iff, <- (filter_In (fun piece => negb (side piece))).
  split; apply Permutation_in; [| apply Permutation_sym]; apply Hperm.
Qed.

(** X15.  What [find_black_move] returns is a legal move of Black.  Whatever
    order the shuffle leaves the black pieces in, the triple returned names a
    black piece of the board and a square of the board that the piece's
    [can_move_to] accepts; and among the squares of that piece it is the
    first in the order of the scan, columns from 1 up and, in a column, rows
    from 1 up: [can_move_to] returned false for every square before it. *)
Theorem find_black_move_sound {rng : Type}
        (shuffle : rng -> list Piece -> list Piece * rng) (g g' : rng)
        (B : Board) (P : Piece) (x y : Z) :
  (forall g l, Permutation (fst (shuffle g l)) l) ->
  find_black_move shuffle g B = (Selected P x y, g') ->
  In P (snd B) /\ side P = false /\
  1 <= x <= fst B /\ 1 <= y <= fst B /\
  can_move_to P x y B = Ret true /\
  forall x' y', 1 <= x' <= fst B -> 1 <= y' <= fst B ->
                x' < x \/ (x' = x /\ y' < y) ->
                can_move_to P x' y' B = Ret false.
Proof.
  intros Hperm; rewrite find_black_move_unfold.
  destruct (black_search B _) as [[[[p0 x0] y0] |] | e |] eqn:Hsearch;
    intros Hsel; inversion Hsel; subst p0 x0 y0; clear Hsel.
  unfold black_search in Hsearch.
  apply search_m_Some in Hsearch; destruct Hsearch as [piece [Hin Hcols]].
  apply (shuffled_blacks shuffle g B piece Hperm) in Hin.
  apply search_range_first in Hcols.
  destruct Hcols as [x1 [Hx1 [Hcol Hleft]]].
  apply search_range_first in Hcol.
  destruct Hcol as [y1 [Hy1 [Hsq Hbelow]]].
  apply try_square_Some in Hsq; destruct Hsq as [Hlegal Heq].
  inversion Heq; subst piece x1 y1; clear Heq.
  repeat (split; [tauto || lia || exact Hlegal |]).
  intros x' y' Hx' Hy' [Hlt | [-> Hlt]].
  - pose proof (search_m_None _ _ (Hleft x' ltac:(lia)) y') as Hsq.
    cbv beta in Hsq; apply try_square_None, Hsq, in_py_range; lia.
  - apply try_square_None, Hbelow; lia.
Qed.

Lemma find_black_move_sound_witness :
  In (mkPiece 2 King 5 5 false) (snd check_board) /\
  side (mkPiece 2 King 5 5 false) = false /\
  1 <= 4 <= fst check_board /\ 1 <= 5 <= fst check_board /\
  can_move_to (mkPiece 2 King 5 5 false) 4 5 check_board = Ret true /\
  forall x' y', 1 <= x' <= fst check_board -> 1 <= y' <= fst check_board ->
                x' < 4 \/ (x' = 4 /\ y' < 5) ->
                can_move_to (mkPiece 2 King 5 5 false) x' y' check_board
                = Ret false.
Proof.
  apply (find_black_move_sound reversing_shuffle 0%nat 1%nat check_board).
  - intros g l; apply Permutation_sym, Permutation_rev.
  - vm_compute; reflexivity.
Defined.

(** X16.  With a black king on the board, [find_black_move] neither passes
    an exception of [can_move_to] on nor leaves the embedding: it returns a
    triple, or it raises its own "No valid move found for Black." error, and
    it raises exactly when no black piece has a square of the board it can
    move to, whatever the shuffle does. *)
Theorem find_black_move_complete {rng : Type}
        (shuffle : rng -> list Piece -> list Piece * rng) (g : rng) (B : Board) :
  (forall g l, Permutation (fst (shuffle g l)) l) ->
  has_King false B ->
  ((exists P x y, fst (find_black_move shuffle g B) = Selected P x y) \/
   fst (find_black_move shuffle g B) = NoValidMove) /\
  (fst (find_black_move shuffle g B) = NoValidMove <->
   forall p x y, In p (snd B) -> side p = false ->
                 1 <= x <= fst B -> 1 <= y <= fst B ->
                 can_move_to p x y B = Ret false).
Proof.
  intros Hperm Hking; rewrite find_black_move_unfold; cbn [fst].
  destruct (black_search_returns B
              (fst (shuffle g (filter (fun piece => negb (side piece)) (snd B))))
              Hking) as [r Hr].
  { intros p Hp; apply (shuffled_blacks shuffle g B p Hperm) in Hp; tauto. }
  rewrite Hr; destruct r as [[[P x] y] |].
  - split; [left; eauto |]; split; [discriminate |].
    intros Hnone; exfalso.
    unfold black_search in Hr.
    apply search_m_Some in Hr; destruct Hr as [piece [Hin Hcols]].
    apply (shuffled_blacks shuffle g B piece Hperm) in Hin.
    apply search_m_Some in Hcols; destruct Hcols as [x1 [Hx1 Hcol]].
    apply search_m_Some in Hcol; destruct Hcol as [y1 [Hy1 Hsq]].
    apply try_square_Some in Hsq; destruct Hsq as [Hlegal _].
    apply in_py_range in Hx1, Hy1.
    rewrite (Hnone piece x1 y1) in Hlegal; [discriminate | tauto .. | lia | lia].
  - split; [right; reflexivity |]; split; [intros _ | reflexivity].
    intros p x y Hp Hside Hx Hy.
    apply (black_search_None B _ Hr); auto.
    apply (shuffled_blacks shuffle g B p Hperm); auto.
Qed.

Lemma find_black_move_complete_witness :
  ((exists P x y,
       fst (find_black_move reversing_shuffle 0%nat stalemate_board)
       = Selected P x y) \/
   fst (find_black_move reversing_shuffle 0%nat stalemate_board) = NoValidMove) /\
  (fst (find_black_move reversing_shuffle 0%nat stalemate_board) = NoValidMove <->
   forall p x y, In p (snd stalemate_board) -> side p = false ->
                 1 <= x <= fst stalemate_board -> 1 <= y <= fst stalemate_board ->
                 can_move_to p x y stalemate_board = Ret false).
Proof.
  apply (find_black_move_complete reversing_shuffle 0%nat stalemate_board).
  - intros g l; apply Permutation_sym, Permutation_rev.
  - exact stalemate_board_has_King.
Defined.

(** A side that is neither checkmated nor stalemated has a legal move. *)
Lemma side_has_move (side_ : bool) (B : Board) :
  is_checkmate side_ B = Ret false ->
  is_stalemate side_ B = Ret false ->
  has_King side_ B /\
  exists p x y, In p (snd B) /\ side p = side_ /\
                1 <= x <= fst B /\ 1 <= y <= fst B /\
                can_move_to p x y B = Ret true.
Proof.
  intros Hmate Hstale.
  destruct (is_check_outcome side_ B) as [[Hking [check Hcheck]] | [_ Hraise]].
  - split; [exact Hking |].
    destruct (has_legal_move_iff side_ B Hking) as [escape [Hescape Hiff]].
    unfold is_checkmate in Hmate; unfold is_stalemate in Hstale.
    fold (has_legal_move side_ B) in Hmate, Hstale.
    rewrite Hcheck, Hescape in Hmate, Hstale; simpl in Hmate, Hstale.
    apply Hiff; destruct check, escape; simpl in *; congruence.
  - unfold is_checkmate in Hmate; rewrite Hraise in Hmate; discriminate.
Qed.

(** X17.  The step of the game after White's move.  On a board for which
    [is_checkmate] and [is_stalemate] have both returned false for Black,
    which is where the game loop calls it, [find_black_move] returns a triple
    whatever the shuffle does; the move is legal, so that [move_to] for it
    returns a board, on which Black is not in check. *)
Theorem find_black_move_after_white {rng : Type}
        (shuffle : rng -> list Piece -> list Piece * rng) (g : rng) (B : Board) :
  (forall g l, Permutation (fst (shuffle g l)) l) ->
  is_checkmate false B = Ret false ->
  is_stalemate false B = Ret false ->
  exists P x y B',
    fst (find_black_move shuffle g B) = Selected P x y /\
    can_move_to P x y B = Ret true /\
    move_to P x y B = Ret B' /\
    is_check false B' = Ret false.
Proof.
  intros Hperm Hmate Hstale.
  destruct (side_has_move false B Hmate Hstale)
    as [Hking [p [x [y [Hp [Hside [Hx [Hy Hlegal]]]]]]]].
  rewrite find_black_move_unfold; cbn [fst].
  destruct (black_search_returns B
              (fst (shuffle g (filter (fun piece => negb (side piece)) (snd B))))
              Hking) as [r Hr].
  { intros q Hq; apply (shuffled_blacks shuffle g B q Hperm) in Hq; tauto. }
  rewrite Hr; destruct r as [[[P x0] y0] |].
  - unfold black_search in Hr.
    apply search_m_Some in Hr; destruct Hr as [piece [Hin Hcols]].
    apply (shuffled_blacks shuffle g B piece Hperm) in Hin.
    apply search_m_Some in Hcols; destruct Hcols as [x1 [_ Hcol]].
    apply search_m_Some in Hcol; destruct Hcol as [y1 [_ Hsq]].
    apply try_square_Some in Hsq; destruct Hsq as [HlegalP Heq].
    inversion Heq; subst piece x1 y1; clear Heq.
    destruct (legal_move_facts P x0 y0 B HlegalP)
      as [_ [_ [_ [B' [Hmove Hcheck]]]]].
    destruct Hin as [_ HsideP]; rewrite HsideP in Hcheck.
    exists P, x0, y0, B'; repeat split; auto.
  - exfalso.
    rewrite (black_search_None B _ Hr p x y) in Hlegal;
      [discriminate | | exact Hx | exact Hy].
    apply (shuffled_blacks shuffle g B p Hperm); auto.
Qed.

Lemma find_black_move_after_white_witness :
  exists P x y B',
    fst (find_black_move reversing_shuffle 0%nat check_board) = Selected P x y /\
    can_move_to P x y check_board = Ret true /\
    move_to P x y check_board = Ret B' /\
    is_check false B' = Ret false.
Proof.
  apply (find_black_move_after_white reversing_shuffle 0%nat check_board).
  - intros g l; apply Permutation_sym, Permutation_rev.
  - vm_compute; reflexivity.
  - vm_compute; reflexivity.
Defined.

(** * Properties of the display *)

(** ** Indexing *)

Lemma list_index_valid {A : Type} (l : list A) (i : Z) :
  - Z.of_nat (length l) <= i < Z.of_nat (length l) ->
  exists k, list_index l i = Ret k /\ (k < length l)%nat /\
            (0 <= i -> k = Z.to_nat i).
Proof.
  intros Hi; unfold list_index.
  destruct ((0 <=? i) && (i <? Z.of_nat (length l))) eqn:Hfront.
  - rewrite andb_true_iff, Z.leb_le, Z.ltb_lt in Hfront.
    exists (Z.to_nat i); repeat split; auto; lia.
  - rewrite andb_false_iff, Z.leb_gt, Z.ltb_ge in Hfront.
    replace ((- Z.of_nat (length l) <=? i) && (i <? 0)) with true.
    + exists (Z.to_nat (i + Z.of_nat (length l))); repeat split; lia.
    + symmetry; rewrite andb_true_iff, Z.leb_le, Z.ltb_lt; lia.
Qed.

Lemma list_index_invalid {A : Type} (l : list A) (i : Z) :
  ~ (- Z.of_nat (length l) <= i < Z.of_nat (length l)) ->
  list_index l i = Raise IndexError.
Proof.
  intros Hi; unfold list_index.
  replace ((0 <=? i) && (i <? Z.of_nat (length l))) with false
    by (symmetry; rewrite andb_false_iff, Z.leb_gt, Z.ltb_ge; lia).
  replace ((- Z.of_nat (length l) <=? i) && (i <? 0)) with false
    by (symmetry; rewrite andb_false_iff, Z.leb_gt, Z.ltb_ge; lia).
  reflexivity.
Qed.

Lemma list_set_length {A : Type} (l : list A) (k : nat) (v : A) :
  length (list_set l k v) = length l.
Proof.
  revert k; induction l as [| a l IH]; intros [| k]; simpl; auto.
Qed.

Lemma nth_error_list_set_eq {A : Type} (l : list A) (k : nat) (v : A) :
  (k < length l)%nat -> nth_error (list_set l k v) k = Some v.
Proof.
  revert k; induction l as [| a l IH]; intros [| k] Hk; simpl in *;
    try lia; [reflexivity | apply IH; lia].
Qed.

Lemma nth_error_list_set_neq {A : Type} (l : list A) (k k' : nat) (v : A) :
  k <> k' -> nth_error (list_set l k v) k' = nth_error l k'.
Proof.
  revert k k'; induction l as [| a l IH]; intros [| k] [| k'] Hne; simpl;
    try reflexivity; [contradiction | apply IH; lia].
Qed.

Lemma Forall_list_set {A : Type} (P : A -> Prop) (l : list A) (k : nat) (v : A) :
  Forall P l -> P v -> Forall P (list_set l k v).
Proof.
  intros Hl Hv; revert k; induction Hl as [| a l Ha Hl IH]; intros [| k];
    simpl; constructor; auto.
Qed.

(** ** One piece *)

Lemma square_grid_row (n : nat) (board : list (list Z)) (k : nat) :
  square_grid n board -> (k < n)%nat ->
  exists row, nth_error board k = Some row /\ length row = n.
Proof.
  intros [Hlen Hrows] Hk.
  destruct (nth_error board k) as [row |] eqn:Hrow.
  - exists row; split; [reflexivity |].
    apply nth_error_In in Hrow.
    exact (proj1 (Forall_forall _ _) Hrows row Hrow).
  - apply nth_error_None in Hrow; lia.
Qed.

Lemma place_fits (n : nat) (board : list (list Z)) (piece : Piece) :
  square_grid n board ->
  fits (Z.of_nat n) piece = true ->
  exists ky kx row,
    (ky < n)%nat /\ (kx < n)%nat /\
    nth_error board ky = Some row /\ length row = n /\
    (0 <= pos_y piece - 1 -> ky = Z.to_nat (pos_y piece - 1)) /\
    (0 <= pos_x piece - 1 -> kx = Z.to_nat (pos_x piece - 1)) /\
    place board piece
    = Ret (list_set board ky (list_set row kx (symbol piece))) /\
    square_grid n (list_set board ky (list_set row kx (symbol piece))).
Proof.
  intros Hgrid Hfits; pose proof Hgrid as [Hlen Hrows].
  unfold fits in Hfits.
  rewrite !andb_true_iff, !Z.leb_le, !Z.ltb_lt in Hfits.
  destruct (list_index_valid board (pos_y piece - 1)) as [ky [Hky [Hkylt Hkyfront]]];
    [rewrite Hlen; lia |].
  rewrite Hlen in Hkylt.
  destruct (square_grid_row n board ky Hgrid Hkylt) as [row [Hrow Hrowlen]].
  destruct (list_index_valid row (pos_x piece - 1)) as [kx [Hkx [Hkxlt Hkxfront]]];
    [rewrite Hrowlen; lia |].
  rewrite Hrowlen in Hkxlt.
  exists ky, kx, row; repeat split; auto.
  - unfold place, list_get, list_assign.
    rewrite Hky; cbn [bind]; rewrite Hrow; cbn [bind].
    rewrite Hkx; reflexivity.
  - rewrite list_set_length; exact Hlen.
  - apply Forall_list_set; [exact Hrows |].
    rewrite list_set_length; exact Hrowlen.
Qed.

Lemma place_misfit (n : nat) (board : list (list Z)) (piece : Piece) :
  square_grid n board ->
  fits (Z.of_nat n) piece = false ->
  place board piece = Raise IndexError.
Proof.
  intros Hgrid Hfits; pose proof Hgrid as [Hlen Hrows].
  unfold place, list_get, list_assign.
  destruct (Z_le_dec (- Z.of_nat n) (pos_y piece - 1)) as [Hlo |];
    [destruct (Z_lt_dec (pos_y piece - 1) (Z.of_nat n)) as [Hhi |] |].
  - destruct (list_index_valid board (pos_y piece - 1)) as [ky [Hky [Hkylt _]]];
      [rewrite Hlen; lia |].
    rewrite Hlen in Hkylt.
    destruct (square_grid_row n board ky Hgrid Hkylt) as [row [Hrow Hrowlen]].
    rewrite Hky; cbn [bind]; rewrite Hrow; cbn [bind].
    rewrite (list_index_invalid row (pos_x piece - 1)); [reflexivity |].
    rewrite Hrowlen; intros Hx; unfold fits in Hfits.
    rewrite !andb_false_iff, !Z.leb_gt, !Z.ltb_ge in Hfits; lia.
  - rewrite (list_index_invalid board); [reflexivity | rewrite Hlen; lia].
  - rewrite (list_index_invalid board); [reflexivity | rewrite Hlen; lia].
Qed.

(** ** All the pieces *)

Lemma draw_fits (n : nat) (pieces : list Piece) (board : list (list Z)) :
  square_grid n board ->
  (forall p, In p pieces -> fits (Z.of_nat n) p = true) ->
  exists board', fold_m place pieces board = Ret board' /\ square_grid n board'.
Proof.
  revert board; induction pieces as [| a l IH]; intros board Hgrid Hall; simpl.
  - eauto.
  - destruct (place_fits n board a Hgrid (Hall a (or_introl eq_refl)))
      as [ky [kx [row [_ [_ [_ [_ [_ [_ [Hplace Hgrid']]]]]]]]]].
    rewrite Hplace; cbn [bind].
    apply IH; [exact Hgrid' | intros p Hp; apply Hall; right; exact Hp].
Qed.

Lemma draw_misfit (n : nat) (pieces : list Piece) (board : list (list Z)) :
  square_grid n board ->
  (exists p, In p pieces /\ fits (Z.of_nat n) p = false) ->
  fold_m place pieces board = Raise IndexError.
Proof.
  revert board; induction pieces as [| a l IH]; intros board Hgrid [p [Hp Hbad]].
  - destruct Hp.
  - simpl; destruct (fits (Z.of_nat n) a) eqn:Ha.
    + destruct (place_fits n board a Hgrid Ha)
        as [ky [kx [row [_ [_ [_ [_ [_ [_ [Hplace Hgrid']]]]]]]]]].
      rewrite Hplace; cbn [bind]; apply IH; [exact Hgrid' |].
      destruct Hp as [-> | Hp]; [congruence | eauto].
    + rewrite (place_misfit n board a Hgrid Ha); reflexivity.
Qed.

Lemma blank_grid (n : nat) : square_grid n (repeat (repeat 8193 n) n).
Proof.
  split; [apply repeat_length |].
  apply Forall_forall; intros row Hrow.
  apply repeat_spec in Hrow; subst row; apply repeat_length.
Qed.

Lemma join_rows_length (n : nat) (board : list (list Z)) :
  Forall (fun row => length row = n) board ->
  length (join_rows board) = (length board * n + (length board - 1))%nat.
Proof.
  induction 1 as [| row rows Hrow Hrows IH]; [reflexivity |].
  destruct rows as [| row' rows].
  - simpl; lia.
  - change (join_rows (row :: row' :: rows))
      with (row ++ 10 :: join_rows (row' :: rows)).
    rewrite length_app; cbn [length] in *; rewrite IH; lia.
Qed.

(** X18.  When [conf2unicode] returns and when it raises.  With [n] the size
    of the board, or 0 for a negative size, it returns a text when both
    indices [pos_x - 1] and [pos_y - 1] of every piece lie in [-n .. n-1],
    indices below 0 counting from the end of the list; the text then has [n]
    lines of [n] characters and [n - 1] line ends.  It raises [IndexError], and
    nothing else, when a piece has an index outside. *)
Theorem conf2unicode_outcomes (B : Board) :
  ((forall p, In p (snd B) -> fits (Z.max 0 (fst B)) p = true) ->
   exists text,
     conf2unicode B = Ret text /\
     length text
     = (Z.to_nat (fst B) * Z.to_nat (fst B) + (Z.to_nat (fst B) - 1))%nat) /\
  ((exists p, In p (snd B) /\ fits (Z.max 0 (fst B)) p = false) ->
   conf2unicode B = Raise IndexError).
Proof.
  assert (Hn : Z.max 0 (fst B) = Z.of_nat (Z.to_nat (fst B))) by lia.
  rewrite Hn; unfold conf2unicode, draw_board; split.
  - intros Hall.
    destruct (draw_fits _ (snd B) _ (blank_grid (Z.to_nat (fst B))) Hall)
      as [board [Hdraw [Hlen Hrows]]].
    rewrite Hdraw; cbn [bind]; eexists; split; [reflexivity |].
    rewrite (join_rows_length _ _ Hrows), Hlen; reflexivity.
  - intros Hbad.
    rewrite (draw_misfit _ (snd B) _ (blank_grid (Z.to_nat (fst B))) Hbad).
    reflexivity.
Qed.

(** ** What the text shows *)

Lemma find_snoc_cases {A : Type} (f : A -> bool) (l : list A) (a : A) :
  find f (l ++ [a])
  = match find f l with
    | Some b => Some b
    | None => if f a then Some a else None
    end.
Proof.
  induction l as [| b l IH]; simpl; [reflexivity |].
  destruct (f b); [reflexivity | exact IH].
Qed.

Lemma place_cells (n : nat) (board : list (list Z)) (piece : Piece) :
  square_grid n board ->
  1 <= pos_x piece <= Z.of_nat n ->
  1 <= pos_y piece <= Z.of_nat n ->
  exists board',
    place board piece = Ret board' /\ square_grid n board' /\
    forall x y, 1 <= x <= Z.of_nat n -> 1 <= y <= Z.of_nat n ->
                cell board' x y
                = if at_square x y piece then Some (symbol piece)
                  else cell board x y.
Proof.
  intros Hgrid Hx Hy.
  destruct (place_fits n board piece Hgrid)
    as [ky [kx [row [Hky [Hkx [Hrow [Hrowlen [Hkyv [Hkxv [Hplace Hgrid']]]]]]]]]].
  { unfold fits; rewrite !andb_true_iff, !Z.leb_le, !Z.ltb_lt; lia. }
  specialize (Hkyv ltac:(lia)); specialize (Hkxv ltac:(lia)).
  eexists; split; [exact Hplace |]; split; [exact Hgrid' |].
  intros x y Hxr Hyr; unfold cell, at_square.
  destruct (Z.eqb_spec (pos_y piece) y) as [Hyeq | Hyne].
  - replace (Z.to_nat (y - 1)) with ky by lia.
    rewrite nth_error_list_set_eq by (destruct Hgrid as [-> _]; exact Hky).
    rewrite Hrow.
    destruct (Z.eqb_spec (pos_x piece) x) as [Hxeq | Hxne]; simpl.
    + replace (Z.to_nat (x - 1)) with kx by lia.
      apply nth_error_list_set_eq; lia.
    + apply nth_error_list_set_neq; lia.
  - rewrite andb_false_r.
    rewrite nth_error_list_set_neq by lia; reflexivity.
Qed.

Lemma draw_cells (n : nat) (pieces : list Piece) (board : list (list Z)) :
  square_grid n board ->
  (forall p, In p pieces ->
             1 <= pos_x p <= Z.of_nat n /\ 1 <= pos_y p <= Z.of_nat n) ->
  exists board',
    fold_m place pieces board = Ret board' /\ square_grid n board' /\
    forall x y, 1 <= x <= Z.of_nat n -> 1 <= y <= Z.of_nat n ->
                cell board' x y
                = match last_at x y pieces with
                  | Some p => Some (symbol p)
                  | None => cell board x y
                  end.
Proof.
  revert board; induction pieces as [| a l IH]; intros board Hgrid Hall.
  - exists board; repeat split; auto; apply Hgrid.
  - destruct (Hall a (or_introl eq_refl)) as [Hx Hy].
    destruct (place_cells n board a Hgrid Hx Hy) as [mid [Hplace [Hmid Hcells]]].
    destruct (IH mid Hmid (fun p Hp => Hall p (or_intror Hp)))
      as [board' [Hfold [Hgrid' Hrest]]].
    exists board'; simpl; rewrite Hplace; cbn [bind].
    split; [exact Hfold |]; split; [exact Hgrid' |].
    intros x y Hxr Hyr; rewrite (Hrest x y Hxr Hyr), (Hcells x y Hxr Hyr).
    unfold last_at; cbn [rev]; rewrite find_snoc_cases.
    destruct (find (at_square x y) (rev l)); [reflexivity |].
    destruct (at_square x y a); reflexivity.
Qed.

Lemma blank_cell (n : nat) (x y : Z) :
  1 <= x <= Z.of_nat n -> 1 <= y <= Z.of_nat n ->
  cell (repeat (repeat 8193 n) n) x y = Some 8193.
Proof.
  intros Hx Hy; unfold cell.
  rewrite nth_error_repeat by lia; apply nth_error_repeat; lia.
Qed.

(** The character of row [j], column [i] stands at [j * (n + 1) + i] in the
    joined text, and a line end closes every row but the last. *)
Lemma join_rows_nth (n : nat) (board : list (list Z)) (j i : nat) (row : list Z) :
  Forall (fun row => length row = n) board ->
  nth_error board j = Some row -> (i < n)%nat ->
  nth_error (join_rows board) (j * (n + 1) + i) = nth_error row i.
Proof.
  intros Hrows; revert j; induction Hrows as [| r rows Hr Hrows IH];
    intros j Hj Hi; [destruct j; discriminate |].
  destruct rows as [| r' rows].
  - destruct j as [| j]; [| destruct j; discriminate].
    simpl in Hj; inversion Hj; reflexivity.
  - change (join_rows (r :: r' :: rows))
      with (r ++ 10 :: join_rows (r' :: rows)).
    destruct j as [| j]; simpl in Hj.
    + inversion Hj; subst row; simpl; apply nth_error_app1; lia.
    + rewrite nth_error_app2 by lia.
      replace (S j * (n + 1) + i - length r)%nat with (S (j * (n + 1) + i)) by lia.
      simpl; apply IH; assumption.
Qed.

Lemma join_rows_line_end (n : nat) (board : list (list Z)) (j : nat) :
  Forall (fun row => length row = n) board ->
  (S j < length board)%nat ->
  nth_error (join_rows board) (j * (n + 1) + n) = Some 10.
Proof.
  intros Hrows; revert j; induction Hrows as [| r rows Hr Hrows IH];
    intros j Hj; [simpl in Hj; lia |].
  destruct rows as [| r' rows]; [simpl in Hj; lia |].
  change (join_rows (r :: r' :: rows))
    with (r ++ 10 :: join_rows (r' :: rows)).
  rewrite nth_error_app2 by lia.
  destruct j as [| j].
  - replace (0 * (n + 1) + n - length r)%nat with 0%nat by lia; reflexivity.
  - replace (S j * (n + 1) + n - length r)%nat
      with (S (j * (n + 1) + n)) by lia.
    simpl; apply IH; simpl in Hj |- *; lia.
Qed.

(** X19.  What [conf2unicode] draws.  For a board whose pieces all stand on
    squares of the board, the text has, at place [(y - 1) * (size + 1) +
    (x - 1)], the glyph of the piece on the square [(x, y)], so row 1 comes
    first, or the filler U+2001 for a free square; of several pieces on one
    square the last of the list is shown; and every row but the last is
    followed by a line end. *)
Theorem conf2unicode_shows (B : Board) :
  (forall p, In p (snd B) ->
             1 <= pos_x p <= fst B /\ 1 <= pos_y p <= fst B) ->
  exists text,
    conf2unicode B = Ret text /\
    (forall x y, 1 <= x <= fst B -> 1 <= y <= fst B ->
                 nth_error text (Z.to_nat ((y - 1) * (fst B + 1) + (x - 1)))
                 = Some (match last_at x y (snd B) with
                         | Some p => symbol p
                         | None => 8193
                         end)) /\
    (forall y, 1 <= y < fst B ->
               nth_error text (Z.to_nat (y * (fst B + 1) - 1)) = Some 10).
Proof.
  intros Hon; unfold conf2unicode, draw_board.
  destruct (draw_cells (Z.to_nat (fst B)) (snd B) _
                       (blank_grid (Z.to_nat (fst B))))
    as [board [Hdraw [[Hlen Hrows] Hcells]]].
  { intros p Hp; specialize (Hon p Hp); lia. }
  rewrite Hdraw; cbn [bind]; eexists; split; [reflexivity |]; split.
  - intros x y Hx Hy.
    specialize (Hcells x y ltac:(lia) ltac:(lia)).
    rewrite blank_cell in Hcells by lia.
    unfold cell in Hcells.
    destruct (nth_error board (Z.to_nat (y - 1))) as [row |] eqn:Hrow.
    + replace (Z.to_nat ((y - 1) * (fst B + 1) + (x - 1)))
        with (Z.to_nat (y - 1) * (Z.to_nat (fst B) + 1) + Z.to_nat (x - 1))%nat
        by nia.
      rewrite (join_rows_nth _ _ _ _ row Hrows Hrow) by lia.
      rewrite Hcells; destruct (last_at x y (snd B)); reflexivity.
    + apply nth_error_None in Hrow; lia.
  - intros y Hy.
    replace (Z.to_nat (y * (fst B + 1) - 1))
      with (Z.to_nat (y - 1) * (Z.to_nat (fst B) + 1) + Z.to_nat (fst B))%nat
      by nia.
    apply join_rows_line_end; [exact Hrows | lia].
Qed.

Lemma conf2unicode_shows_witness :
  exists text,
    conf2unicode stalemate_board = Ret text /\
    (forall x y, 1 <= x <= fst stalemate_board -> 1 <= y <= fst stalemate_board ->
                 nth_error text
                   (Z.to_nat ((y - 1) * (fst stalemate_board + 1) + (x - 1)))
                 = Some (match last_at x y (snd stalemate_board) with
                         | Some p => symbol p
                         | None => 8193
                         end)) /\
    (forall y, 1 <= y < fst stalemate_board ->
               nth_error text (Z.to_nat (y * (fst stalemate_board + 1) - 1))
               = Some 10).
Proof.
  apply (conf2unicode_shows stalemate_board).
  intros p Hp; simpl in Hp.
  repeat (destruct Hp as [<- | Hp]; [simpl; lia |]); destruct Hp.
Defined.
